(** * The ingredient cabinet screen: local list, undo closures, remote sync

    A shallow embedding of [MyIngredientsScreen] from
    [frontend/app/(tabs)/cabinet.tsx].  The component state is a record,
    every handler is a function on it, and the handlers that talk to the
    pantry API or to AsyncStorage run in a small state-and-exception monad
    over the same record.

    Conventions of the embedding:
    - a JavaScript [number] holding a quantity is the rational it denotes
      ([Q]); [NaN], the infinities and binary64 rounding error are outside
      the model;
    - server ids are integers ([Z]); [0] is the one falsy id;
    - strings are [string]; [trim] and [toLowerCase] act on the ASCII range;
    - an optional field is an [option]; [undefined] and [null] are [None];
    - a closure stored in state is a Rocq function;
    - timers are not modelled: the body of a debounced effect is one run of
      the corresponding function;
    - a call of the pantry API may fail, a call of AsyncStorage is taken to
      succeed; the [saving] and [_syncing] flags, which nothing reads but
      the header text, are left out. *)

From Stdlib Require Import List String Ascii Bool Arith ZArith QArith Qabs Qround.
From Stdlib Require Import DecimalString DecimalPos DecimalZ.
From Stdlib Require Import Lia Lqa Sorted Permutation.
Import ListNotations.

Set Implicit Arguments.

Local Open Scope string_scope.

(** ** JavaScript prelude *)

Module Js.

(** [x ?? d] *)
Definition nullish {A : Type} (x : option A) (d : A) : A :=
  match x with Some v => v | None => d end.

(** truthiness of an optional boolean: only [true] is truthy *)
Definition truthy (b : option bool) : bool :=
  match b with Some true => true | _ => false end.

(** truthiness of a string: every string but the empty one *)
Definition truthy_string (s : string) : bool :=
  match s with EmptyString => false | String _ _ => true end.

(** truthiness of an integer [number]: every one but 0 *)
Definition truthy_num (n : Z) : bool := negb (n =? 0)%Z.

Definition is_space (c : ascii) : bool :=
  let n := nat_of_ascii c in
  ((9 <=? n) && (n <=? 13) || (n =? 32))%nat.

Fixpoint trimStart (s : string) : string :=
  match s with
  | String c r => if is_space c then trimStart r else s
  | EmptyString => EmptyString
  end.

Fixpoint trimEnd (s : string) : string :=
  match s with
  | String c r =>
      match trimEnd r with
      | EmptyString => if is_space c then EmptyString else String c EmptyString
      | r' => String c r'
      end
  | EmptyString => EmptyString
  end.

(** [s.trim()] *)
Definition trim (s : string) : string := trimEnd (trimStart s).

Definition lower (c : ascii) : ascii :=
  let n := nat_of_ascii c in
  if ((65 <=? n) && (n <=? 90))%nat then ascii_of_nat (n + 32) else c.

(** [s.toLowerCase()] *)
Fixpoint toLowerCase (s : string) : string :=
  match s with
  | String c r => String (lower c) (toLowerCase r)
  | EmptyString => EmptyString
  end.

(** [s.includes(sub)] *)
Definition includes (s sub : string) : bool :=
  match index 0 sub s with Some _ => true | None => false end.

(** [xs.findIndex(p)], with [None] for [-1] *)
Fixpoint findIndex {A : Type} (p : A -> bool) (xs : list A) : option nat :=
  match xs with
  | [] => None
  | x :: r => if p x then Some 0%nat else option_map S (findIndex p r)
  end.

(** [xs.slice(0, n)] and [xs.slice(n)] for [n >= 0] *)
Definition slice_to {A : Type} (n : nat) (xs : list A) : list A := firstn n xs.
Definition slice_from {A : Type} (n : nat) (xs : list A) : list A := skipn n xs.

(** [xs.sort(cmp)]: a stable sort; [cmp a b > 0] puts [b] first *)
Fixpoint sort_insert {A : Type} (cmp : A -> A -> Z) (x : A) (xs : list A) : list A :=
  match xs with
  | [] => [x]
  | y :: r => if (0 <? cmp x y)%Z then y :: sort_insert cmp x r else x :: xs
  end.

Definition sort {A : Type} (cmp : A -> A -> Z) (xs : list A) : list A :=
  fold_right (sort_insert cmp) [] xs.

(** [Math.min], [Math.max], [Math.abs], [Math.round] on quantities *)
Definition Math_min (a b : Q) : Q := if Qle_bool a b then a else b.
Definition Math_max (a b : Q) : Q := if Qle_bool a b then b else a.
Definition Math_abs (a : Q) : Q := Qabs a.
Definition Math_round (a : Q) : Q := inject_Z (Qfloor (a + (1 # 2))).

(** A [Map<string, V>]: keys in insertion order, [set] keeps the place of
    a key that is already there. *)
Definition Map (V : Type) : Type := list (string * V).

Fixpoint Map_get {V : Type} (k : string) (m : Map V) : option V :=
  match m with
  | [] => None
  | (k', v) :: r => if k' =? k then Some v else Map_get k r
  end.

Fixpoint Map_set {V : Type} (k : string) (v : V) (m : Map V) : Map V :=
  match m with
  | [] => [(k, v)]
  | (k', v') :: r => if k' =? k then (k, v) :: r else (k', v') :: Map_set k v r
  end.

Fixpoint Map_delete {V : Type} (k : string) (m : Map V) : Map V :=
  match m with
  | [] => []
  | (k', v') :: r => if k' =? k then r else (k', v') :: Map_delete k r
  end.

(** A [Set<string>]: members in insertion order, [add] of a member that is
    already there changes nothing. *)
Definition Set_add (x : string) (s : list string) : list string :=
  if existsb (String.eqb x) s then s else (s ++ [x])%list.

(** The decimal text of an integer, as a template literal prints it. *)
Definition to_string (n : Z) : string :=
  DecimalString.NilZero.string_of_int (Z.to_int n).

End Js.


(** ** Data model *)

(** [Category] is imported from the row component; its values are string
    literals such as ['Other']. *)
Definition Category : Type := string.

Record Ingredient : Type := mkIngredient {
  id : string;
  name : string;
  category : Category;
  owned : bool;
  wanted : option bool;
  impactScore : option Q;
  imageUrl : option string;
  (** 0..1 fraction remaining, default 1 (full) *)
  qty : option Q
}.

(** Object spreads [{ ...i, field: v }], one per set of fields the source
    overrides. *)
Definition with_wanted (w : bool) (i : Ingredient) : Ingredient :=
  mkIngredient (id i) (name i) (category i) (owned i) (Some w)
               (impactScore i) (imageUrl i) (qty i).

Definition with_owned (o : bool) (i : Ingredient) : Ingredient :=
  mkIngredient (id i) (name i) (category i) o (wanted i)
               (impactScore i) (imageUrl i) (qty i).

Definition with_qty (q : Q) (i : Ingredient) : Ingredient :=
  mkIngredient (id i) (name i) (category i) (owned i) (wanted i)
               (impactScore i) (imageUrl i) (Some q).

Definition with_name (n : string) (i : Ingredient) : Ingredient :=
  mkIngredient (id i) n (category i) (owned i) (wanted i)
               (impactScore i) (imageUrl i) (qty i).

Definition with_name_image (n u : string) (i : Ingredient) : Ingredient :=
  mkIngredient (id i) n (category i) (owned i) (wanted i)
               (impactScore i) (Some u) (qty i).

Definition with_wanted_owned_qty (w o : bool) (q : Q) (i : Ingredient) : Ingredient :=
  mkIngredient (id i) (name i) (category i) o (Some w)
               (impactScore i) (imageUrl i) (Some q).

(** A row of [GET /users/me/pantry]; [quantity] may come back [null], which
    is why the source reads it through [??]. *)
Module PantryItem.
Record t : Type := mk {
  id : Z;
  ingredient_name : string;
  quantity : option Q
}.
End PantryItem.

(** The calls of [useApi] against the pantry. *)
Inductive Request : Type :=
| GET_pantry
| POST_pantry (ingredient_name : string) (quantity : Q)
| PUT_pantry (backendId : Z) (quantity : Q)
| DELETE_pantry (backendId : Z).

(** What the server (or the network) answers. *)
Inductive Reply : Type :=
| Failed
| Rows (items : list PantryItem.t)
| Created (item : PantryItem.t)
| NoContent.

(** The transient notification and its undo closure: every [onUndo] of the
    source is [setIngredients(f); setToast(null)], so the closure is kept as
    its updater [f]. *)
Record Toast : Type := mkToast {
  text : string;
  onUndo : list Ingredient -> list Ingredient
}.

Inductive Tab : Type := cabinet | shopping.

(** The state of the screen: the [useState] cells, the [useRef] map from
    local id to server id, and what the screen has done to the outside
    (the cache cell under [STORAGE_KEY], the requests issued, the
    warnings logged). *)
Record Screen : Type := mkScreen {
  ingredients : list Ingredient;
  activeTab : Tab;
  query : string;
  sortAsc : bool;
  categoryFilter : string;
  toast : option Toast;
  openMenuForId : option string;
  isSheetOpen : bool;
  renameModalVisible : bool;
  renamingItem : option Ingredient;
  newName : string;
  loading : bool;
  backendIngredientMap : Js.Map Z;
  asyncStorage : option string;
  requests : list Request;
  warnings : list string
}.

Definition setIngredients (f : list Ingredient -> list Ingredient) (st : Screen) : Screen :=
  mkScreen (f (ingredients st)) (activeTab st) (query st) (sortAsc st)
    (categoryFilter st) (toast st) (openMenuForId st) (isSheetOpen st)
    (renameModalVisible st) (renamingItem st) (newName st) (loading st)
    (backendIngredientMap st) (asyncStorage st) (requests st) (warnings st).

Definition setQuery (q : string) (st : Screen) : Screen :=
  mkScreen (ingredients st) (activeTab st) q (sortAsc st)
    (categoryFilter st) (toast st) (openMenuForId st) (isSheetOpen st)
    (renameModalVisible st) (renamingItem st) (newName st) (loading st)
    (backendIngredientMap st) (asyncStorage st) (requests st) (warnings st).

Definition setToast (t : option Toast) (st : Screen) : Screen :=
  mkScreen (ingredients st) (activeTab st) (query st) (sortAsc st)
    (categoryFilter st) t (openMenuForId st) (isSheetOpen st)
    (renameModalVisible st) (renamingItem st) (newName st) (loading st)
    (backendIngredientMap st) (asyncStorage st) (requests st) (warnings st).

Definition setSheet (menu : option string) (open : bool) (st : Screen) : Screen :=
  mkScreen (ingredients st) (activeTab st) (query st) (sortAsc st)
    (categoryFilter st) (toast st) menu open
    (renameModalVisible st) (renamingItem st) (newName st) (loading st)
    (backendIngredientMap st) (asyncStorage st) (requests st) (warnings st).

Definition setRename (visible : bool) (it : option Ingredient) (n : string)
    (st : Screen) : Screen :=
  mkScreen (ingredients st) (activeTab st) (query st) (sortAsc st)
    (categoryFilter st) (toast st) (openMenuForId st) (isSheetOpen st)
    visible it n (loading st)
    (backendIngredientMap st) (asyncStorage st) (requests st) (warnings st).

Definition setNewName (n : string) (st : Screen) : Screen :=
  setRename (renameModalVisible st) (renamingItem st) n st.

Definition setLoading (b : bool) (st : Screen) : Screen :=
  mkScreen (ingredients st) (activeTab st) (query st) (sortAsc st)
    (categoryFilter st) (toast st) (openMenuForId st) (isSheetOpen st)
    (renameModalVisible st) (renamingItem st) (newName st) b
    (backendIngredientMap st) (asyncStorage st) (requests st) (warnings st).

Definition setBackendIngredientMap (f : Js.Map Z -> Js.Map Z) (st : Screen) : Screen :=
  mkScreen (ingredients st) (activeTab st) (query st) (sortAsc st)
    (categoryFilter st) (toast st) (openMenuForId st) (isSheetOpen st)
    (renameModalVisible st) (renamingItem st) (newName st) (loading st)
    (f (backendIngredientMap st)) (asyncStorage st) (requests st) (warnings st).

Definition setAsyncStorage (v : option string) (st : Screen) : Screen :=
  mkScreen (ingredients st) (activeTab st) (query st) (sortAsc st)
    (categoryFilter st) (toast st) (openMenuForId st) (isSheetOpen st)
    (renameModalVisible st) (renamingItem st) (newName st) (loading st)
    (backendIngredientMap st) v (requests st) (warnings st).

Definition pushRequest (r : Request) (st : Screen) : Screen :=
  mkScreen (ingredients st) (activeTab st) (query st) (sortAsc st)
    (categoryFilter st) (toast st) (openMenuForId st) (isSheetOpen st)
    (renameModalVisible st) (renamingItem st) (newName st) (loading st)
    (backendIngredientMap st) (asyncStorage st) (requests st ++ [r])%list (warnings st).

Definition pushWarning (w : string) (st : Screen) : Screen :=
  mkScreen (ingredients st) (activeTab st) (query st) (sortAsc st)
    (categoryFilter st) (toast st) (openMenuForId st) (isSheetOpen st)
    (renameModalVisible st) (renamingItem st) (newName st) (loading st)
    (backendIngredientMap st) (asyncStorage st) (requests st) (warnings st ++ [w])%list.

(** The double quote of the toast texts. *)
Definition dq : string := String (ascii_of_nat 34) EmptyString.

Definition quoted (s : string) : string := dq ++ s ++ dq.

(** The Toast component calls [onUndo] when Undo is pressed. *)
Definition pressUndo (st : Screen) : Screen :=
  match toast st with
  | None => st
  | Some t => setToast None (setIngredients (onUndo t) st)
  end.

(** The state at mount: the defaults of the [useState] and [useRef] cells,
    over a cache holding [cache]. *)
Definition initialScreen (cache : option string) : Screen :=
  mkScreen [] cabinet "" true "All" None None false false None "" true
           [] cache [] [].

(** A loaded screen showing the list [l]. *)
Definition loadedScreen (l : list Ingredient) : Screen :=
  setIngredients (fun _ => l) (setLoading false (initialScreen None)).

(** ** Handlers on the in-memory list *)

(** The result of [normalizeIngredient]. *)
Record Normalized : Type := mkNormalized {
  displayName : string;
  canonicalName : string
}.

(** [a || b] on strings *)
Definition or_else (a b : string) : string :=
  if Js.truthy_string a then a else b.

Section Handlers.

(** Imported collaborators ([../utils/normalize], [../utils/cocktaildb])
    and the locale-dependent string order. *)
Variable normalizeIngredient : string -> Normalized.
Variable ingredientImageUrl : string -> string -> string.
Variable localeCompare : string -> string -> Z.

Definition hasId (k : string) (i : Ingredient) : bool := id i =? k.

(** *** Derived data *)

Definition sortByName (st : Screen) (items : list Ingredient) : list Ingredient :=
  let out := Js.sort (fun a b => localeCompare (name a) (name b)) items in
  if sortAsc st then out else rev out.

Definition filterByQueryAndCategory (st : Screen) (items : list Ingredient)
  : list Ingredient :=
  let out := items in
  let out :=
    if Js.truthy_string (Js.trim (query st)) then
      let q := Js.toLowerCase (Js.trim (query st)) in
      filter (fun i => Js.includes (Js.toLowerCase (name i)) q) out
    else out in
  let out :=
    if negb (categoryFilter st =? "All") then
      filter (fun i => category i =? categoryFilter st) out
    else out in
  out.

Definition cabinetItems (st : Screen) : list Ingredient :=
  sortByName st (filterByQueryAndCategory st (filter owned (ingredients st))).

Definition shoppingItems (st : Screen) : list Ingredient :=
  sortByName st
    (filterByQueryAndCategory st
       (filter (fun i => Js.truthy (wanted i)) (ingredients st))).

(** *** Actions *)

Definition toggleWanted (k : string) : Screen -> Screen :=
  setIngredients
    (map (fun i => if hasId k i then with_wanted (negb (Js.truthy (wanted i))) i else i)).

(** The updater behind the undo of a delete: it reinserts [removed] at
    [idx] unless an entry with that id is there. *)
Definition deleteUndo (idx : nat) (removed : Ingredient)
    (prev2 : list Ingredient) : list Ingredient :=
  let exists_ := existsb (fun x => id x =? id removed) prev2 in
  if exists_ then prev2
  else (Js.slice_to idx prev2 ++ [removed] ++ Js.slice_from idx prev2)%list.

Definition deleteIngredient (k : string) (st : Screen) : Screen :=
  let prev := ingredients st in
  match Js.findIndex (hasId k) prev with
  | None => st
  | Some idx =>
      match nth_error prev idx with
      | None => st (* not reached: [idx] is an index of [prev] *)
      | Some removed =>
          let next := (Js.slice_to idx prev ++ Js.slice_from (idx + 1) prev)%list in
          setIngredients (fun _ => next)
            (setToast
               (Some (mkToast ("Deleted " ++ quoted (name removed))
                              (deleteUndo idx removed)))
               st)
      end
  end.

Definition addToShopping (k : string) : Screen -> Screen :=
  setIngredients (map (fun i => if hasId k i then with_wanted true i else i)).

Definition removeFromCabinet (k : string) (st : Screen) : Screen :=
  match find (hasId k) (ingredients st) with
  | None => st
  | Some removed =>
      setToast
        (Some (mkToast ("Removed " ++ quoted (name removed) ++ " from Cabinet")
                 (map (fun i => if hasId k i then with_owned true i else i))))
        (setIngredients
           (map (fun i => if hasId k i then with_owned false i else i)) st)
  end.

Definition removeFromShopping (k : string) (st : Screen) : Screen :=
  match find (hasId k) (ingredients st) with
  | None => st
  | Some removed =>
      setToast
        (Some (mkToast ("Removed " ++ quoted (name removed) ++ " from Shopping")
                 (map (fun i => if hasId k i then with_wanted true i else i))))
        (setIngredients
           (map (fun i => if hasId k i then with_wanted false i else i)) st)
  end.

(** The two updaters of [markPurchasedSingle]; the second one is its
    undo and closes over the entry [it] found before the change. *)
Definition purchase (k : string) : list Ingredient -> list Ingredient :=
  map (fun i => if hasId k i then with_wanted_owned_qty false true 1 i else i).

Definition purchaseUndo (k : string) (it : Ingredient)
  : list Ingredient -> list Ingredient :=
  map (fun i =>
         if hasId k i
         then with_wanted_owned_qty true false (Js.nullish (qty it) 1) i
         else i).

Definition markPurchasedSingle (k : string) (st : Screen) : Screen :=
  match find (hasId k) (ingredients st) with
  | None => st
  | Some it =>
      setToast
        (Some (mkToast ("Marked " ++ quoted (name it) ++ " as purchased")
                 (purchaseUndo k it)))
        (setIngredients (purchase k) st)
  end.

Definition markPurchased (st : Screen) : Screen :=
  if (List.length (shoppingItems st) =? 0)%nat then st
  else
    setIngredients
      (map (fun i =>
              if Js.truthy (wanted i)
              then with_wanted_owned_qty false true 1 i else i))
      st.

Definition handleRename (k : string) (st : Screen) : Screen :=
  match find (hasId k) (ingredients st) with
  | None => st
  | Some it => setSheet None false (setRename true (Some it) (name it) st)
  end.

Definition confirmRename (st : Screen) : Screen :=
  match renamingItem st with
  | None => st
  | Some renaming =>
      if negb (Js.truthy_string (Js.trim (newName st))) then st
      else
        let trimmed := Js.trim (newName st) in
        let n := normalizeIngredient trimmed in
        if trimmed =? name renaming then setRename false None "" st
        else
          setRename false None ""
            (setToast
               (Some (mkToast
                        ("Renamed " ++ quoted (name renaming) ++ " to "
                           ++ quoted trimmed)
                        (map (fun i =>
                                if hasId (id renaming) i
                                then with_name (name renaming) i else i))))
               (setIngredients
                  (map (fun i =>
                          if hasId (id renaming) i
                          then with_name_image (displayName n)
                                 (ingredientImageUrl
                                    (or_else (canonicalName n) (displayName n))
                                    "Small")
                                 i
                          else i))
                  st))
  end.

Definition cancelRename : Screen -> Screen := setRename false None "".

(** The local half of [adjustQty]: clamp, round to two decimals, store. *)
Definition roundedQty (nextQty : Q) : Q :=
  let clamped := Js.Math_max 0 (Js.Math_min 1 nextQty) in
  Js.Math_round (clamped * 100) / 100.

Definition adjustQtyLocal (k : string) (nextQty : Q)
  : list Ingredient -> list Ingredient :=
  map (fun i => if hasId k i then with_qty (roundedQty nextQty) i else i).

End Handlers.

(** ** Effects: exceptions, the pantry API, the cache *)

Inductive Exn : Type :=
| ReferenceError (identifier : string)
| RequestFailed (r : Request)
| TypeError
| SyntaxError.

Inductive Outcome (A : Type) : Type :=
| Ret (a : A)
| Throw (e : Exn).

Arguments Ret {A} a.
Arguments Throw {A} e.

(** A computation of the screen: it reads and changes the state and either
    returns or throws. *)
Definition M (A : Type) : Type := Screen -> Outcome A * Screen.

Definition ret {A : Type} (a : A) : M A := fun st => (Ret a, st).

Definition throw {A : Type} (e : Exn) : M A := fun st => (Throw e, st).

Definition bind {A B : Type} (m : M A) (k : A -> M B) : M B :=
  fun st =>
    match m st with
    | (Ret a, st') => k a st'
    | (Throw e, st') => (Throw e, st')
    end.

Definition gets {A : Type} (f : Screen -> A) : M A := fun st => (Ret (f st), st).

Definition modify (f : Screen -> Screen) : M unit := fun st => (Ret tt, f st).

(** [try { m } catch (e) { h e }] *)
Definition try_catch {A : Type} (m : M A) (h : Exn -> M A) : M A :=
  fun st =>
    match m st with
    | (Ret a, st') => (Ret a, st')
    | (Throw e, st') => h e st'
    end.

(** [try { m } finally { f }] *)
Definition finally {A : Type} (m : M A) (f : M unit) : M A :=
  fun st =>
    match m st with
    | (o, st') =>
        match f st' with
        | (Ret _, st'') => (o, st'')
        | (Throw e, st'') => (Throw e, st'')
        end
    end.

Declare Scope screen_scope.
Delimit Scope screen_scope with screen.
Notation "x <- m ;; k" := (bind m (fun x => k))
  (at level 61, m at next level, right associativity) : screen_scope.
Notation "m ;; k" := (bind m (fun _ => k))
  (at level 61, right associativity) : screen_scope.

(** [for (const x of xs) { await body(x) }] *)
Fixpoint forEach {A : Type} (xs : list A) (body : A -> M unit) : M unit :=
  match xs with
  | [] => ret tt
  | x :: r => bind (body x) (fun _ => forEach r body)
  end.

(** [console.warn] *)
Definition warn (w : string) : M unit := modify (pushWarning w).

Inductive Action : Type := Add | Update | Remove.

Definition action_text (a : Action) : string :=
  match a with Add => "add" | Update => "update" | Remove => "remove" end.

Section Effects.

Local Open Scope screen_scope.

(** [useAuth().isAuthenticated] *)
Variable isAuthenticated : bool.

(** The server and the network: the answer to a request, given the
    requests issued before it. *)
Variable api : list Request -> Request -> Reply.

Variable normalizeIngredient : string -> Normalized.
Variable ingredientImageUrl : string -> string -> string.

(** [JSON.stringify] and [JSON.parse] on the cached array; [None] is a
    text that does not parse.  An entry read back without a numeric
    [qty] has [qty = None]. *)
Variable JSON_stringify : list Ingredient -> string.
Variable JSON_parse : string -> option (list Ingredient).

(** One call of [useApi]: the request is recorded, a failure rejects. *)
Definition call (r : Request) : M Reply :=
  fun st =>
    match api (requests st) r with
    | Failed => (Throw (RequestFailed r), pushRequest r st)
    | reply => (Ret reply, pushRequest r st)
    end.

Definition get : M (list PantryItem.t) :=
  reply <- call GET_pantry ;;
  match reply with
  | Rows items => ret items
  | _ => throw TypeError
  end.

Definition post (ingredient_name : string) (quantity : Q) : M PantryItem.t :=
  reply <- call (POST_pantry ingredient_name quantity) ;;
  match reply with
  | Created item => ret item
  | _ => throw TypeError
  end.

Definition put (backendId : Z) (quantity : Q) : M unit :=
  call (PUT_pantry backendId quantity) ;; ret tt.

Definition del (backendId : Z) : M unit :=
  call (DELETE_pantry backendId) ;; ret tt.

(** *** Sync of one ingredient *)

Definition syncIngredientToBackend (ingredient : Ingredient) (action : Action)
  : M unit :=
  if negb isAuthenticated || negb (owned ingredient) then ret tt
  else
    try_catch
      (match action with
       | Add =>
           response <- post (name ingredient) (Js.nullish (qty ingredient) 1) ;;
           modify (setBackendIngredientMap
                     (Js.Map_set (id ingredient) (PantryItem.id response)))
       | Update =>
           m <- gets backendIngredientMap ;;
           match Js.Map_get (id ingredient) m with
           | Some backendId =>
               if Js.truthy_num backendId
               then put backendId (Js.nullish (qty ingredient) 1)
               else ret tt
           | None => ret tt
           end
       | Remove =>
           m <- gets backendIngredientMap ;;
           match Js.Map_get (id ingredient) m with
           | Some backendId =>
               if Js.truthy_num backendId
               then del backendId ;;
                    modify (setBackendIngredientMap (Js.Map_delete (id ingredient)))
               else ret tt
           | None => ret tt
           end
       end)
      (fun _ => warn ("Failed to sync ingredient " ++ action_text action ++ ":")).

(** *** [adjustQty] *)

Definition adjustQty (k : string) (nextQty : Q) : M unit :=
  modify (setIngredients (adjustQtyLocal k nextQty)) ;;
  updated <- gets ingredients ;;
  match find (hasId k) updated with
  | Some ingredient =>
      if isAuthenticated && owned ingredient
      then try_catch (syncIngredientToBackend ingredient Update)
             (fun _ => warn "Failed to sync quantity update:")
      else ret tt
  | None => ret tt
  end.

(** *** Adding from the catalog

    The handler of a row of the Add modal, for the catalog name
    [itemName].  [now] is [Date.now()], [random] is [Math.random()] and
    [stepper] is the quantity stepper of the modal. *)

Definition onCabinetTab (st : Screen) : bool :=
  match activeTab st with cabinet => true | shopping => false end.

Definition addFromCatalog (itemName : string) (now : Z) (random stepper : Q)
  : M unit :=
  let n := normalizeIngredient itemName in
  inCabinet <- gets onCabinetTab ;;
  let newIngredient :=
    mkIngredient (Js.to_string now) (displayName n) "Other"
      inCabinet (Some (negb inCabinet)) (Some random)
      (Some (ingredientImageUrl (or_else (canonicalName n) (displayName n))
               "Small"))
      (Some (Js.Math_max 0 (Js.Math_min 1 stepper))) in
  modify (setIngredients (fun prev => (prev ++ [newIngredient])%list)) ;;
  if inCabinet && isAuthenticated
  then try_catch (syncIngredientToBackend newIngredient Add)
         (fun _ => warn "Failed to sync new ingredient:")
  else ret tt.

(** *** The debounced sync to the backend *)

Definition buildBackendMap (pantryItems : list PantryItem.t) : Js.Map Z :=
  fold_left
    (fun m item =>
       Js.Map_set
         (Js.toLowerCase
            (displayName (normalizeIngredient (PantryItem.ingredient_name item))))
         (PantryItem.id item) m)
    pantryItems [].

(** [Math.abs((backendItem.quantity ?? 1) - (ingredient.qty ?? 1)) > 0.01] *)
Definition quantityDiffers (backendItem : PantryItem.t) (ingredient : Ingredient)
  : bool :=
  negb (Qle_bool
          (Js.Math_abs (Js.nullish (PantryItem.quantity backendItem) 1
                        - Js.nullish (qty ingredient) 1))
          (1 # 100)).

(** The body of the loop over the owned ingredients. *)
Definition syncOwned (pantryItems : list PantryItem.t) (backendMap : Js.Map Z)
    (ingredient : Ingredient) : M unit :=
  let normalizedName := Js.toLowerCase (name ingredient) in
  match Js.Map_get normalizedName backendMap with
  | Some backendId =>
      if Js.truthy_num backendId then
        (match find (fun p => (PantryItem.id p =? backendId)%Z) pantryItems with
         | Some backendItem =>
             if quantityDiffers backendItem ingredient
             then syncIngredientToBackend ingredient Update
             else ret tt
         | None => ret tt
         end) ;;
        modify (setBackendIngredientMap (Js.Map_set (id ingredient) backendId))
      else syncIngredientToBackend ingredient Add
  | None => syncIngredientToBackend ingredient Add
  end.

(** The body of the loop over the local-id map: a mapping whose entry is
    gone or no longer owned is deleted remotely and dropped. *)
Definition dropStale (current : list Ingredient) (entry : string * Z) : M unit :=
  let (localId, backendId) := entry in
  match find (hasId localId) current with
  | Some ingredient =>
      if negb (owned ingredient)
      then del backendId ;;
           modify (setBackendIngredientMap (Js.Map_delete localId))
      else ret tt
  | None =>
      del backendId ;;
      modify (setBackendIngredientMap (Js.Map_delete localId))
  end.

(** One firing of the sync timer.  The second loop walks the live map;
    its body removes nothing but the entry it visits, so walking the
    entries present when the loop starts is the same walk. *)
Definition syncToBackend : M unit :=
  fun st =>
    if loading st || negb isAuthenticated then (Ret tt, st)
    else
      try_catch
        (pantryItems <- get ;;
         let backendMap := buildBackendMap pantryItems in
         current <- gets ingredients ;;
         let ownedIngredients := filter owned current in
         forEach ownedIngredients (syncOwned pantryItems backendMap) ;;
         m <- gets backendIngredientMap ;;
         forEach m (dropStale current))
        (fun _ => warn "Failed to sync to backend:")
        st.

(** *** The initial load *)

(** Neither identifier is bound in the module or in the component:
    evaluating it raises a ReferenceError. *)
Definition mergedIngredients : M (list Ingredient) :=
  throw (ReferenceError "mergedIngredients").

Definition existingIngredients : M (list Ingredient) :=
  throw (ReferenceError "existingIngredients").

Definition localId (item : PantryItem.t) : string :=
  "db_" ++ Js.to_string (PantryItem.id item).

(** Backend format to local format. *)
Definition toLocal (item : PantryItem.t) : Ingredient :=
  let n := normalizeIngredient (PantryItem.ingredient_name item) in
  mkIngredient (localId item) (displayName n) "Other" true None None
    (Some (ingredientImageUrl (or_else (canonicalName n) (displayName n)) "Small"))
    (PantryItem.quantity item).

Definition recordLoaded (pantryItems : list PantryItem.t) (m : Js.Map Z)
  : Js.Map Z :=
  fold_left (fun m item => Js.Map_set (localId item) (PantryItem.id item) m)
    pantryItems m.

(** The database branch; [true] when the effect returns from inside it. *)
Definition loadFromDatabase : M bool :=
  if isAuthenticated then
    try_catch
      (pantryItems <- get ;;
       if (0 <? List.length pantryItems)%nat then
         modify (setBackendIngredientMap (recordLoaded pantryItems)) ;;
         let loadedIngredients := map toLocal pantryItems in
         modify (setIngredients (fun _ => loadedIngredients)) ;;
         merged <- mergedIngredients ;;
         modify (setAsyncStorage (Some (JSON_stringify merged))) ;;
         modify (setLoading false) ;;
         ret true
       else ret false)
      (fun _ =>
         warn "Failed to load from database, using cache:" ;; ret false)
  else ret false.

(** The cache branch. *)
Definition loadFromCache : M unit :=
  raw <- gets asyncStorage ;;
  match raw with
  | Some text =>
      if Js.truthy_string text then
        _parsed <- match JSON_parse text with
                   | Some parsed => ret parsed
                   | None => throw SyntaxError
                   end ;;
        existing <- existingIngredients ;;
        modify (setIngredients
                  (fun _ => map (fun i => with_qty (Js.nullish (qty i) 1) i)
                              existing))
      else ret tt
  | None => ret tt
  end.

Definition loadCabinet : M unit :=
  finally
    (try_catch
       (modify (setLoading true) ;;
        returned <- loadFromDatabase ;;
        if returned then ret tt else loadFromCache)
       (fun _ => warn "Failed to load cabinet:"))
    (modify (setLoading false)).

(** *** The debounced write of the cache *)

Definition saveToCache : M unit :=
  fun st =>
    if loading st then (Ret tt, st)
    else
      (current <- gets ingredients ;;
       modify (setAsyncStorage (Some (JSON_stringify current)))) st.

End Effects.

(** ** Counts and category chips *)

(** The counts shown on the two tabs. *)
Definition ownedCount (st : Screen) : nat :=
  List.length (filter owned (ingredients st)).

Definition wantedCount (st : Screen) : nat :=
  List.length (filter (fun i => Js.truthy (wanted i)) (ingredients st)).

(** The chips: ['All'] and then the categories in use, each once, in the
    order of their first entry. *)
Definition categories (st : Screen) : list string :=
  "All" :: fold_left (fun set i => Js.Set_add (category i) set)
                     (ingredients st) [].

(** ** The assistant screen

    The chat screen of the same source text: its message list, the
    keyword fallback and [handleSend].  A [Date] is its epoch time in
    milliseconds. *)

Module Assistant.

Record Message : Type := mkMessage {
  id : string;
  text : string;
  isUser : bool;
  timestamp : Z
}.

(** The body of [POST /assistant/chat]. *)
Record Turn : Type := mkTurn {
  role : string;
  content : string
}.

Record ChatRequest : Type := mkChatRequest {
  message : string;
  conversation_history : list Turn
}.

(** The answer, or the error thrown with its [status], if it has one. *)
Inductive ChatReply : Type :=
| Answered (message : string)
| Rejected (status : option Z).

Record Screen : Type := mkScreen {
  messages : list Message;
  inputText : string;
  isLoading : bool;
  (** the requests posted and the alerts shown so far *)
  posted : list ChatRequest;
  alerts : list string
}.

Definition setMessages (f : list Message -> list Message) (st : Screen) : Screen :=
  mkScreen (f (messages st)) (inputText st) (isLoading st) (posted st) (alerts st).

Definition setInputText (t : string) (st : Screen) : Screen :=
  mkScreen (messages st) t (isLoading st) (posted st) (alerts st).

Definition setIsLoading (b : bool) (st : Screen) : Screen :=
  mkScreen (messages st) (inputText st) b (posted st) (alerts st).

Definition post (r : ChatRequest) (st : Screen) : Screen :=
  mkScreen (messages st) (inputText st) (isLoading st) (posted st ++ [r])%list
           (alerts st).

Definition alert (title : string) (st : Screen) : Screen :=
  mkScreen (messages st) (inputText st) (isLoading st) (posted st)
           (alerts st ++ [title])%list.

Definition greeting : string :=
  "Hello! I'm your cocktail assistant. How can I help you today?".

Definition recipeReply : string :=
  "I'd be happy to help you find a cocktail recipe! What ingredients do you have on hand, or what type of drink are you in the mood for?".

Definition ingredientReply : string :=
  "Tell me what ingredients you have, and I can suggest some great cocktails you can make with them!".

Definition recommendReply : string :=
  "I'd love to recommend a cocktail! What's your preference - something sweet, sour, strong, or refreshing?".

Definition howToReply : string :=
  "I can walk you through making a cocktail step by step! Which cocktail would you like to learn how to make?".

Definition defaultReply : string :=
  "That's interesting! I'm here to help with cocktail recipes, ingredient suggestions, and drink recommendations. What would you like to know?".

(** The fallback when the API fails: simple keyword-based responses. *)
Definition generateMockResponse (userMessage : string) : string :=
  let lowerMessage := Js.toLowerCase userMessage in
  if Js.includes lowerMessage "hello" || Js.includes lowerMessage "hi"
     || Js.includes lowerMessage "hey"
  then greeting
  else if Js.includes lowerMessage "recipe" || Js.includes lowerMessage "drink"
          || Js.includes lowerMessage "cocktail"
  then recipeReply
  else if Js.includes lowerMessage "ingredient"
          || Js.includes lowerMessage "what can i make"
  then ingredientReply
  else if Js.includes lowerMessage "recommend"
          || Js.includes lowerMessage "suggestion"
  then recommendReply
  else if Js.includes lowerMessage "how" && Js.includes lowerMessage "make"
  then howToReply
  else defaultReply.

(** [msg.id !== messages[0]?.id || !msg.text.includes('Hello!')] *)
Definition inHistory (all : list Message) (msg : Message) : bool :=
  negb (match all with
        | first :: _ => id msg =? id first
        | [] => false
        end)
  || negb (Js.includes (text msg) "Hello!").

Definition conversationHistory (all : list Message) : list Turn :=
  map (fun msg => mkTurn (if isUser msg then "user" else "assistant") (text msg))
      (filter (inHistory all) all).

(** [error?.status !== 401 && error?.status !== 403] *)
Definition notAuthError (status : option Z) : bool :=
  match status with
  | Some code => negb (code =? 401)%Z && negb (code =? 403)%Z
  | None => true
  end.

(** [handleSend(message?)].  [sentAt] and [sentDate] are [Date.now()] and
    [new Date()] when the message is sent, [answeredAt] and [answeredDate]
    when the answer or the error arrives; [server] answers the request. *)
Definition handleSend (message : option string)
    (sentAt sentDate answeredAt answeredDate : Z)
    (server : ChatRequest -> ChatReply) (st : Screen) : Screen :=
  let messageToSend :=
    match message with
    | Some m => if Js.truthy_string m then m else Js.trim (inputText st)
    | None => Js.trim (inputText st)
    end in
  if (messageToSend =? "") || isLoading st then st
  else
    let userMessage := Js.trim messageToSend in
    let newMessage := mkMessage (Js.to_string sentAt) userMessage true sentDate in
    let st1 :=
      setIsLoading true
        (setInputText ""
           (setMessages (fun prev => (prev ++ [newMessage])%list) st)) in
    let request := mkChatRequest userMessage (conversationHistory (messages st)) in
    let st2 := post request st1 in
    let st3 :=
      match server request with
      | Answered answer =>
          setMessages
            (fun prev =>
               (prev ++ [mkMessage (Js.to_string (answeredAt + 1)) answer false
                           answeredDate])%list)
            st2
      | Rejected status =>
          let st' :=
            setMessages
              (fun prev =>
                 (prev ++ [mkMessage (Js.to_string (answeredAt + 1))
                             (generateMockResponse userMessage) false
                             answeredDate])%list)
              st2 in
          if notAuthError status then alert "Connection Error" st' else st'
      end in
    setIsLoading false st3.

End Assistant.

(** ** Notions the properties are stated with *)

(** [clamp(q, 0, 1)] in the words of the specification. *)
Definition clamp01 (q : Q) : Q :=
  if Qlt_le_dec q 0 then 0 else if Qlt_le_dec 1 q then 1 else q.

(** What [markPurchased] does to one entry. *)
Definition purchased (i : Ingredient) : Ingredient :=
  if Js.truthy (wanted i) then with_wanted_owned_qty false true 1 i else i.

(** A computation keeps the list when it leaves [ingredients] as it found
    it, whatever it returns or throws. *)
Definition keeps_list {A : Type} (m : M A) : Prop :=
  forall st, ingredients (snd (m st)) = ingredients st.

(** A computation returns when no exception leaves it. *)
Definition returns (m : M unit) : Prop :=
  forall st, fst (m st) = Ret tt.

(** What a handler must keep: the ids of the list, in order, and every
    entry under another id than [k], at its index. *)
Definition keeps_others (k : string) (before after : list Ingredient) : Prop :=
  map id after = map id before
  /\ forall n e, nth_error before n = Some e -> hasId k e = false ->
                 nth_error after n = Some e.

(** An entry passes the search box and the category chips. *)
Definition passesFilter (st : Screen) (e : Ingredient) : Prop :=
  (Js.trim (query st) = ""
   \/ Js.includes (Js.toLowerCase (name e))
                  (Js.toLowerCase (Js.trim (query st))) = true)
  /\ (categoryFilter st = "All" \/ category e = categoryFilter st).

(** A computation respects a relation between the state it starts from
    and the state it ends in. *)
Definition respects {A : Type} (P : Screen -> Screen -> Prop) (m : M A) : Prop :=
  forall st, P st (snd (m st)).

(** The requests already issued stay, in order. *)
Definition extendsRequests (st st' : Screen) : Prop :=
  exists extra, requests st' = (requests st ++ extra)%list.

(** The recorded server ids stay one per local id. *)
Definition keepsKeysDistinct (st st' : Screen) : Prop :=
  NoDup (map fst (backendIngredientMap st)) ->
  NoDup (map fst (backendIngredientMap st')).

(** The server ids recorded under the local ids outside [K] stay. *)
Definition keepsMappingsOff (K : string -> Prop) (st st' : Screen) : Prop :=
  forall k b, ~ K k -> In (k, b) (backendIngredientMap st) ->
              In (k, b) (backendIngredientMap st').

(** The test of the second loop of the pass: the local id has no entry, or
    its entry is not owned. *)
Definition isStale (current : list Ingredient) (localId : string) : bool :=
  match find (hasId localId) current with
  | Some ingredient => negb (owned ingredient)
  | None => true
  end.

(** What one step of the second loop does to the map when the delete is
    accepted. *)
Definition dropStep (current : list Ingredient) (m : Js.Map Z)
    (entry : string * Z) : Js.Map Z :=
  if isStale current (fst entry) then Js.Map_delete (fst entry) m else m.

(** ** Sample entries, servers and texts *)

Definition mint : Ingredient :=
  mkIngredient "m1" "Mint" "Herb" true None None None (Some 1).

Definition gin : Ingredient :=
  mkIngredient "g1" "Gin" "Spirit" true None None None (Some (1 # 2)).

(** A legacy entry: no quantity. *)
Definition rum : Ingredient :=
  mkIngredient "r1" "Rum" "Spirit" true None None None None.

(** Two entries under one id. *)
Definition twinLime : Ingredient :=
  mkIngredient "a" "Lime" "Other" true None None None (Some 1).

Definition twinMint : Ingredient :=
  mkIngredient "a" "Mint" "Other" true None None None (Some 1).


(** Entries added from the shopping tab: wanted, not owned. *)
Definition limeWanted : Ingredient :=
  mkIngredient "2" "Lime" "Other" false (Some true) None None (Some (1 # 4)).

Definition ginWanted : Ingredient :=
  mkIngredient "3" "Gin" "Spirit" false (Some true) None None None.

(** The local "Lime" at 0.5 under the id [k], and the remote "Lime" at 0.9. *)
Definition limeHalf (k : string) : Ingredient :=
  mkIngredient k "Lime" "Other" true None None None (Some (1 # 2)).

Definition limeRow : PantryItem.t := PantryItem.mk 7 "Lime" (Some (9 # 10)).

(** A server that is never reached, and one whose pantry holds [limeRow]. *)
Definition noServer (_ : list Request) (_ : Request) : Reply := Failed.

Definition limeServer (_ : list Request) (r : Request) : Reply :=
  match r with
  | GET_pantry => Rows [limeRow]
  | POST_pantry n q => Created (PantryItem.mk 8 n (Some q))
  | _ => NoContent
  end.

(** A server that lists [limeRow] and rejects every write. *)
Definition rejectingServer (_ : list Request) (r : Request) : Reply :=
  match r with
  | GET_pantry => Rows [limeRow]
  | _ => Failed
  end.

(** Stand-ins for the normalizer and the image URL in the examples. *)
Definition sameName (s : string) : Normalized := mkNormalized s s.

Definition imageOf (s size : string) : string := s ++ "-" ++ size ++ ".png".

(** Another stand-in order: shorter names first. *)
Definition byLength (a b : string) : Z :=
  Z.of_nat (String.length a) - Z.of_nat (String.length b).

(** A chat that starts with the welcome message. *)
Definition welcome : Assistant.Message :=
  Assistant.mkMessage "welcome-1700000000000"
    "Hello! I'm your cocktail assistant. I can help you with cocktail recipes, ingredient suggestions, and drink recommendations. What would you like to know?"
    false 1700000000000.

Definition askedMojito : Assistant.Message :=
  Assistant.mkMessage "1700000001000" "How do I make a Mojito?" true
    1700000001000.

Definition chat : Assistant.Screen :=
  Assistant.mkScreen [welcome; askedMojito] "  Something with this gin " false
    [] [].

(** An assistant that cannot be reached. *)
Definition unreachable (_ : Assistant.ChatRequest) : Assistant.ChatReply :=
  Assistant.Rejected None.

(** A stand-in for the locale order in the examples. *)
Definition byteCompare (a b : string) : Z :=
  match String.compare a b with Lt => -1 | Eq => 0 | Gt => 1 end.

(** A cached array of one legacy entry, and a stand-in for [JSON.parse]
    that reads it. *)
Definition cachedText : string :=
  "[{" ++ quoted "id" ++ ":" ++ quoted "r1" ++ "," ++ quoted "name" ++ ":"
       ++ quoted "Rum" ++ "," ++ quoted "category" ++ ":" ++ quoted "Spirit"
       ++ "," ++ quoted "owned" ++ ":true}]".

Definition parseCached (text : string) : option (list Ingredient) :=
  if text =? cachedText then Some [rum] else None.

(** * Properties *)

Unset Implicit Arguments.

(** ** Facts about the list primitives *)

Section ListFacts.

Context {A : Type}.
Implicit Types (p : A -> bool) (l : list A).

Lemma findIndex_app_fresh p l1 x l2 :
  existsb p l1 = false -> p x = true ->
  Js.findIndex p (l1 ++ x :: l2) = Some (List.length l1).
Proof.
  intros Hfresh Hx. induction l1 as [|y l1 IH]; simpl in *.
  - now rewrite Hx.
  - apply orb_false_iff in Hfresh as [Hy Hl1].
    rewrite Hy, (IH Hl1). reflexivity.
Qed.

Lemma find_findIndex p l x :
  find p l = Some x ->
  exists l1 l2,
    l = (l1 ++ x :: l2)%list /\ existsb p l1 = false /\ p x = true.
Proof.
  induction l as [|y l IH]; simpl; [discriminate|].
  destruct (p y) eqn:Hy.
  - intros [= ->]. exists [], l. auto.
  - intros H. destruct (IH H) as (l1 & l2 & -> & Hf & Hx).
    exists (y :: l1), l2. simpl. rewrite Hy. auto.
Qed.

Lemma find_map_some p (f : A -> A) l x :
  (forall y, p (f y) = p y) ->
  find p l = Some x ->
  find p (map (fun y => if p y then f y else y) l) = Some (f x).
Proof.
  intros Hf. induction l as [|y l IH]; simpl; [discriminate|].
  destruct (p y) eqn:Hy.
  - intros [= ->]. now rewrite Hf, Hy.
  - intros H. rewrite Hy. auto.
Qed.

Lemma nth_error_middle l1 x l2 :
  nth_error (l1 ++ x :: l2) (List.length l1) = Some x.
Proof. induction l1; simpl; auto. Qed.

Lemma slice_to_middle l1 l2 : Js.slice_to (List.length l1) (l1 ++ l2) = l1.
Proof.
  unfold Js.slice_to. induction l1; simpl.
  - now destruct l2.
  - now f_equal.
Qed.

Lemma slice_from_middle l1 l2 : Js.slice_from (List.length l1) (l1 ++ l2) = l2.
Proof. unfold Js.slice_from. induction l1; simpl; auto. Qed.

Lemma slice_from_after l1 x l2 :
  Js.slice_from (List.length l1 + 1) (l1 ++ x :: l2) = l2.
Proof.
  unfold Js.slice_from. induction l1; simpl; auto.
Qed.

Lemma existsb_false_forall p l :
  existsb p l = false <-> forall x, In x l -> p x = false.
Proof.
  induction l as [|y l IH]; simpl.
  - split; [intros _ x []|reflexivity].
  - rewrite orb_false_iff, IH. split.
    + intros [Hy Hl] x [<-|Hx]; auto.
    + intros H. split; auto.
Qed.

End ListFacts.

(** ** Delete and its undo *)

Lemma hasId_refl (e : Ingredient) : hasId (id e) e = true.
Proof. apply String.eqb_refl. Qed.

Lemma hasId_true k e : hasId k e = true <-> id e = k.
Proof. apply String.eqb_eq. Qed.

Lemma existsb_hasId_In k l :
  existsb (hasId k) l = false -> ~ In k (map id l).
Proof.
  intros H Hin. apply in_map_iff in Hin as (x & Hx & Hin).
  rewrite existsb_false_forall in H. specialize (H x Hin).
  apply hasId_true in Hx. congruence.
Qed.

(** What [deleteIngredient] does when the first entry with the id splits
    the list. *)
Lemma deleteIngredient_split st l1 e l2 :
  ingredients st = (l1 ++ e :: l2)%list ->
  existsb (hasId (id e)) l1 = false ->
  let st1 := deleteIngredient (id e) st in
  ingredients st1 = (l1 ++ l2)%list
  /\ toast st1 =
       Some (mkToast ("Deleted " ++ quoted (name e))
                     (deleteUndo (List.length l1) e)).
Proof.
  intros Hl Hfresh. unfold deleteIngredient.
  rewrite Hl.
  rewrite (findIndex_app_fresh (hasId (id e)) l1 e l2)
    by (assumption || apply hasId_refl).
  rewrite nth_error_middle. simpl.
  rewrite slice_from_after, slice_to_middle.
  auto.
Qed.

Lemma deleteUndo_present idx removed l :
  existsb (hasId (id removed)) l = true -> deleteUndo idx removed l = l.
Proof. unfold deleteUndo, hasId. now intros ->. Qed.

Lemma deleteUndo_absent idx removed l :
  existsb (hasId (id removed)) l = false ->
  deleteUndo idx removed l
  = (Js.slice_to idx l ++ [removed] ++ Js.slice_from idx l)%list.
Proof. unfold deleteUndo, hasId. now intros ->. Qed.

Lemma deleteUndo_has_id idx removed l :
  existsb (hasId (id removed)) (deleteUndo idx removed l) = true.
Proof.
  destruct (existsb (hasId (id removed)) l) eqn:E.
  - now rewrite deleteUndo_present.
  - rewrite deleteUndo_absent by assumption.
    rewrite existsb_app. simpl. rewrite hasId_refl.
    now rewrite orb_true_r.
Qed.

Lemma deleteUndo_idempotent idx removed l :
  deleteUndo idx removed (deleteUndo idx removed l) = deleteUndo idx removed l.
Proof. apply deleteUndo_present, deleteUndo_has_id. Qed.

Lemma deleteUndo_NoDup idx removed l :
  NoDup (map id l) -> NoDup (map id (deleteUndo idx removed l)).
Proof.
  intros Hnd. destruct (existsb (hasId (id removed)) l) eqn:E.
  - now rewrite deleteUndo_present.
  - rewrite deleteUndo_absent by assumption.
    unfold Js.slice_to, Js.slice_from. rewrite map_app. simpl.
    apply (NoDup_Add (Add_app (id removed) (map id (firstn idx l))
                        (map id (skipn idx l)))).
    rewrite <- map_app, firstn_skipn. split; [assumption|].
    now apply existsb_hasId_In.
Qed.

Lemma ingredients_pressUndo st t :
  toast st = Some t -> ingredients (pressUndo st) = onUndo t (ingredients st).
Proof. unfold pressUndo. now intros ->. Qed.

Lemma nth_error_unique_split (l : list Ingredient) idx e :
  nth_error l idx = Some e ->
  (forall j e', nth_error l j = Some e' -> id e' = id e -> j = idx) ->
  exists l1 l2,
    l = (l1 ++ e :: l2)%list /\ List.length l1 = idx
    /\ existsb (hasId (id e)) l1 = false
    /\ existsb (hasId (id e)) l2 = false.
Proof.
  intros Hnth Huniq.
  destruct (nth_error_split _ _ Hnth) as (l1 & l2 & -> & Hlen).
  exists l1, l2. repeat split; trivial.
  - apply existsb_false_forall. intros x Hx.
    destruct (hasId (id e) x) eqn:Hid; trivial.
    apply hasId_true in Hid.
    apply In_nth_error in Hx as [j Hj].
    assert (j < List.length l1)%nat by (apply nth_error_Some; congruence).
    assert (j = idx); [|lia].
    apply (Huniq j x); trivial. now rewrite nth_error_app1.
  - apply existsb_false_forall. intros x Hx.
    destruct (hasId (id e) x) eqn:Hid; trivial.
    apply hasId_true in Hid.
    apply In_nth_error in Hx as [j Hj].
    assert (List.length l1 + S j = idx)%nat; [|lia].
    apply (Huniq _ x); trivial.
    rewrite nth_error_app2 by lia.
    replace (List.length l1 + S j - List.length l1)%nat with (S j) by lia.
    exact Hj.
Qed.

(** C6, as amended.  Deleting the entry at index [idx] and pressing Undo at
    once gives back the original list, the entry at its index with every
    field as it was, provided no other entry of the list carries the same
    id. *)
Theorem deleteIngredient_undo_restores :
  forall st idx e,
    nth_error (ingredients st) idx = Some e ->
    (forall j e', nth_error (ingredients st) j = Some e' ->
                  id e' = id e -> j = idx) ->
    let st1 := deleteIngredient (id e) st in
    ingredients st1
    = (firstn idx (ingredients st) ++ skipn (S idx) (ingredients st))%list
    /\ ingredients (pressUndo st1) = ingredients st
    /\ nth_error (ingredients (pressUndo st1)) idx = Some e.
Proof.
  intros st idx e Hnth Huniq st1.
  destruct (nth_error_unique_split _ _ _ Hnth Huniq)
    as (l1 & l2 & Hl & Hlen & H1 & H2).
  destruct (deleteIngredient_split st _ _ _ Hl H1) as [Hnext Htoast].
  fold st1 in Hnext, Htoast.
  assert (Hundo : ingredients (pressUndo st1) = ingredients st).
  { rewrite (ingredients_pressUndo _ _ Htoast). simpl. rewrite Hnext.
    rewrite deleteUndo_absent by (rewrite existsb_app, H1, H2; reflexivity).
    now rewrite slice_to_middle, slice_from_middle, Hl. }
  repeat split.
  - rewrite Hnext, Hl, <- Hlen.
    change (firstn (List.length l1)) with (@Js.slice_to Ingredient (List.length l1)).
    rewrite slice_to_middle.
    replace (S (List.length l1)) with (List.length l1 + 1)%nat by lia.
    change (skipn (List.length l1 + 1))
      with (@Js.slice_from Ingredient (List.length l1 + 1)).
    now rewrite slice_from_after.
  - exact Hundo.
  - now rewrite Hundo.
Qed.

(** C6, counterexample.  With two entries under one id, Undo after the
    delete finds the id still present and puts nothing back. *)
Lemma deleteIngredient_undo_twin_ids :
  let st := loadedScreen [twinLime; twinMint] in
  nth_error (ingredients st) 0 = Some twinLime
  /\ ingredients (pressUndo (deleteIngredient (id twinLime) st)) = [twinMint]
  /\ ingredients (pressUndo (deleteIngredient (id twinLime) st))
     <> ingredients st.
Proof.
  repeat split. discriminate.
Qed.

Lemma deleteIngredient_undo_restores_witness :
  let st := loadedScreen [mint; gin; rum] in
  ingredients (deleteIngredient (id gin) st) = [mint; rum]
  /\ ingredients (pressUndo (deleteIngredient (id gin) st)) = [mint; gin; rum]
  /\ nth_error (ingredients (pressUndo (deleteIngredient (id gin) st))) 1
     = Some gin.
Proof.
  apply (deleteIngredient_undo_restores (loadedScreen [mint; gin; rum]) 1 gin).
  - reflexivity.
  - intros [|[|[|j]]] e'; simpl; intros H; inversion H; subst; simpl;
      try reflexivity; try discriminate.
    destruct j; discriminate.
Defined.

(** C10.  The undo closure recorded by [deleteIngredient] leaves a list that
    already holds the deleted id as it is, so running it twice is the same
    as running it once, and it keeps the ids of a list distinct. *)
Theorem deleteIngredient_undo_idempotent :
  forall st k e,
    find (hasId k) (ingredients st) = Some e ->
    exists t,
      toast (deleteIngredient k st) = Some t
      /\ (forall l, existsb (hasId k) l = true -> onUndo t l = l)
      /\ (forall l, onUndo t (onUndo t l) = onUndo t l)
      /\ (forall l, NoDup (map id l) -> NoDup (map id (onUndo t l))).
Proof.
  intros st k e Hfind.
  destruct (find_findIndex _ _ _ Hfind) as (l1 & l2 & Hl & Hfresh & He).
  apply hasId_true in He. subst k.
  destruct (deleteIngredient_split st _ _ _ Hl Hfresh) as [_ Htoast].
  eexists. split; [exact Htoast|]. simpl. repeat split.
  - intros l. apply deleteUndo_present.
  - intros l. apply deleteUndo_idempotent.
  - intros l. apply deleteUndo_NoDup.
Qed.

Lemma deleteIngredient_undo_idempotent_witness :
  exists t,
    toast (deleteIngredient "g1" (loadedScreen [mint; gin; rum])) = Some t
    /\ (forall l, existsb (hasId "g1") l = true -> onUndo t l = l)
    /\ (forall l, onUndo t (onUndo t l) = onUndo t l)
    /\ (forall l, NoDup (map id l) -> NoDup (map id (onUndo t l))).
Proof.
  apply (deleteIngredient_undo_idempotent
           (loadedScreen [mint; gin; rum]) "g1" gin).
  reflexivity.
Defined.

(** ** Mark purchased, one entry *)






(** ** Quantity adjustment *)

Lemma Math_clamp_is_clamp01 q : Js.Math_max 0 (Js.Math_min 1 q) == clamp01 q.
Proof.
  unfold Js.Math_max, Js.Math_min, clamp01.
  destruct (Qle_bool 1 q) eqn:E1.
  - apply Qle_bool_iff in E1. simpl.
    destruct (Qlt_le_dec q 0); [lra|].
    destruct (Qlt_le_dec 1 q); lra.
  - assert (q < 1).
    { apply Qnot_le_lt. intros H. apply Qle_bool_iff in H. congruence. }
    destruct (Qle_bool 0 q) eqn:E0.
    + apply Qle_bool_iff in E0.
      destruct (Qlt_le_dec q 0); [lra|].
      destruct (Qlt_le_dec 1 q); lra.
    + assert (q < 0).
      { apply Qnot_le_lt. intros H0. apply Qle_bool_iff in H0. congruence. }
      destruct (Qlt_le_dec q 0); lra.
Qed.

Lemma clamp01_range q : 0 <= clamp01 q <= 1.
Proof.
  unfold clamp01.
  destruct (Qlt_le_dec q 0); [lra|].
  destruct (Qlt_le_dec 1 q); lra.
Qed.



(** ** The frame of the remote calls *)

Create HintDb frame.

Section Frame.

Context {A B : Type}.

Lemma keeps_ret (a : A) : keeps_list (ret a).
Proof. intros st. reflexivity. Qed.

Lemma keeps_throw (e : Exn) : keeps_list (@throw A e).
Proof. intros st. reflexivity. Qed.

Lemma keeps_gets (f : Screen -> A) : keeps_list (gets f).
Proof. intros st. reflexivity. Qed.

Lemma keeps_bind (m : M A) (k : A -> M B) :
  keeps_list m -> (forall a, keeps_list (k a)) -> keeps_list (bind m k).
Proof.
  intros Hm Hk st. unfold bind. specialize (Hm st).
  destruct (m st) as [[a|e] st']; simpl in *.
  - now rewrite Hk.
  - assumption.
Qed.

Lemma keeps_try_catch (m : M A) (h : Exn -> M A) :
  keeps_list m -> (forall e, keeps_list (h e)) -> keeps_list (try_catch m h).
Proof.
  intros Hm Hh st. unfold try_catch. specialize (Hm st).
  destruct (m st) as [[a|e] st']; simpl in *.
  - assumption.
  - now rewrite Hh.
Qed.

End Frame.

Lemma keeps_forEach {A : Type} (xs : list A) (body : A -> M unit) :
  (forall x, keeps_list (body x)) -> keeps_list (forEach xs body).
Proof.
  intros Hbody. induction xs as [|x xs IH]; simpl.
  - apply keeps_ret.
  - apply keeps_bind; auto.
Qed.

Lemma keeps_modify (f : Screen -> Screen) :
  (forall st, ingredients (f st) = ingredients st) -> keeps_list (modify f).
Proof. intros Hf st. apply Hf. Qed.

Lemma keeps_warn w : keeps_list (warn w).
Proof. apply keeps_modify. reflexivity. Qed.

Lemma keeps_setBackendIngredientMap f :
  keeps_list (modify (setBackendIngredientMap f)).
Proof. apply keeps_modify. reflexivity. Qed.

Lemma keeps_call api r : keeps_list (call api r).
Proof. intros st. unfold call. destruct (api (requests st) r); reflexivity. Qed.

#[export] Hint Resolve keeps_ret keeps_throw keeps_gets keeps_warn
  keeps_setBackendIngredientMap keeps_call : frame.

Ltac frame :=
  repeat first
    [ progress auto with frame
    | apply keeps_bind; [|intro]
    | apply keeps_try_catch; [|intro]
    | apply keeps_forEach; intro
    | match goal with
      | |- keeps_list (match ?x with _ => _ end) => destruct x
      | |- keeps_list (if ?b then _ else _) => destruct b
      | |- keeps_list (let (_, _) := ?x in _) => destruct x
      end ].

Lemma keeps_get api : keeps_list (get api).
Proof. unfold get. frame. Qed.

Lemma keeps_post api n q : keeps_list (post api n q).
Proof. unfold post. frame. Qed.

Lemma keeps_put api b q : keeps_list (put api b q).
Proof. unfold put. frame. Qed.

Lemma keeps_del api b : keeps_list (del api b).
Proof. unfold del. frame. Qed.

#[export] Hint Resolve keeps_get keeps_post keeps_put keeps_del : frame.

Lemma keeps_syncIngredientToBackend isAuthenticated api ingredient action :
  keeps_list (syncIngredientToBackend isAuthenticated api ingredient action).
Proof. unfold syncIngredientToBackend. frame. Qed.

#[export] Hint Resolve keeps_syncIngredientToBackend : frame.

Lemma keeps_syncOwned isAuthenticated api pantryItems backendMap ingredient :
  keeps_list (syncOwned isAuthenticated api pantryItems backendMap ingredient).
Proof. unfold syncOwned. frame. Qed.

Lemma keeps_dropStale api current entry : keeps_list (dropStale api current entry).
Proof. unfold dropStale. frame. Qed.

#[export] Hint Resolve keeps_syncOwned keeps_dropStale : frame.

Lemma keeps_syncToBackend isAuthenticated api normalizeIngredient :
  keeps_list (syncToBackend isAuthenticated api normalizeIngredient).
Proof.
  intros st. unfold syncToBackend.
  destruct (loading st || negb isAuthenticated); [reflexivity|].
  revert st. change (keeps_list
    (try_catch
       (bind (get api) (fun pantryItems =>
          bind (gets ingredients) (fun current =>
            bind (forEach (filter owned current)
                    (syncOwned isAuthenticated api pantryItems
                       (buildBackendMap normalizeIngredient pantryItems)))
              (fun _ => bind (gets backendIngredientMap)
                 (fun m => forEach m (dropStale api current))))))
       (fun _ => warn "Failed to sync to backend:"))).
  frame.
Qed.

Lemma try_catch_warn_returns (m : M unit) w :
  returns (try_catch m (fun _ => warn w)).
Proof.
  intros st. unfold try_catch. destruct (m st) as [[[]|e] st']; reflexivity.
Qed.

Lemma returns_syncIngredientToBackend isAuthenticated api ingredient action :
  returns (syncIngredientToBackend isAuthenticated api ingredient action).
Proof.
  unfold syncIngredientToBackend.
  destruct (negb isAuthenticated || negb (owned ingredient)).
  - intros st. reflexivity.
  - apply try_catch_warn_returns.
Qed.

Lemma returns_syncToBackend isAuthenticated api normalizeIngredient :
  returns (syncToBackend isAuthenticated api normalizeIngredient).
Proof.
  intros st. unfold syncToBackend.
  destruct (loading st || negb isAuthenticated); [reflexivity|].
  apply try_catch_warn_returns.
Qed.

Lemma ingredients_adjustQty isAuthenticated api k q st :
  ingredients (snd (adjustQty isAuthenticated api k q st))
  = adjustQtyLocal k q (ingredients st).
Proof.
  unfold adjustQty, bind at 1. simpl.
  match goal with
  | |- ingredients (snd (?m ?s)) = _ =>
      assert (H : keeps_list m) by frame; rewrite (H s)
  end.
  reflexivity.
Qed.



(** ** Remote failures *)

Lemma syncIngredientToBackend_failed_add api ingredient st :
  owned ingredient = true ->
  api (requests st)
      (POST_pantry (name ingredient) (Js.nullish (qty ingredient) 1)) = Failed ->
  snd (syncIngredientToBackend true api ingredient Add st)
  = pushWarning "Failed to sync ingredient add:"
      (pushRequest
         (POST_pantry (name ingredient) (Js.nullish (qty ingredient) 1)) st).
Proof.
  intros Ho Hfail. unfold syncIngredientToBackend. rewrite Ho. simpl.
  unfold try_catch, post, bind, call. rewrite Hfail. reflexivity.
Qed.

Lemma ingredients_addFromCatalog
    isAuthenticated api normalizeIngredient ingredientImageUrl
    itemName now random stepper st :
  exists newIngredient,
    ingredients
      (snd (addFromCatalog isAuthenticated api normalizeIngredient
              ingredientImageUrl itemName now random stepper st))
    = (ingredients st ++ [newIngredient])%list
    /\ name newIngredient = displayName (normalizeIngredient itemName).
Proof.
  eexists. unfold addFromCatalog, bind at 1, gets. simpl.
  unfold bind at 1. simpl.
  match goal with
  | |- ingredients (snd (?m ?s)) = _ /\ _ =>
      assert (H : keeps_list m) by frame; rewrite (H s)
  end.
  simpl. split; reflexivity.
Qed.

(** C8.  No remote call of the sync logic touches the in-memory list,
    whatever the server answers, a failure included: one sync of an
    ingredient and a whole sync pass return normally and leave the list as
    it was, [adjustQty] and the add from the catalog keep their local
    change, and a create that fails leaves nothing behind but the request
    and a warning. *)
Theorem remote_failures_keep_list :
  forall isAuthenticated api normalizeIngredient ingredientImageUrl st,
    (forall ingredient action,
        fst (syncIngredientToBackend isAuthenticated api ingredient action st)
        = Ret tt
        /\ ingredients
             (snd (syncIngredientToBackend isAuthenticated api ingredient
                     action st))
           = ingredients st)
    /\ (fst (syncToBackend isAuthenticated api normalizeIngredient st) = Ret tt
        /\ ingredients
             (snd (syncToBackend isAuthenticated api normalizeIngredient st))
           = ingredients st)
    /\ (forall k q,
          ingredients (snd (adjustQty isAuthenticated api k q st))
          = adjustQtyLocal k q (ingredients st))
    /\ (forall itemName now random stepper,
          exists newIngredient,
            ingredients
              (snd (addFromCatalog isAuthenticated api normalizeIngredient
                      ingredientImageUrl itemName now random stepper st))
            = (ingredients st ++ [newIngredient])%list
            /\ name newIngredient
               = displayName (normalizeIngredient itemName))
    /\ (forall ingredient,
          isAuthenticated = true -> owned ingredient = true ->
          api (requests st)
              (POST_pantry (name ingredient) (Js.nullish (qty ingredient) 1))
          = Failed ->
          snd (syncIngredientToBackend isAuthenticated api ingredient Add st)
          = pushWarning "Failed to sync ingredient add:"
              (pushRequest
                 (POST_pantry (name ingredient)
                    (Js.nullish (qty ingredient) 1)) st)).
Proof.
  intros isAuthenticated api normalizeIngredient ingredientImageUrl st.
  split; [|split; [|split; [|split]]].
  - intros ingredient action. split.
    + apply returns_syncIngredientToBackend.
    + apply keeps_syncIngredientToBackend.
  - split.
    + apply returns_syncToBackend.
    + apply keeps_syncToBackend.
  - intros k q. apply ingredients_adjustQty.
  - intros itemName now random stepper. apply ingredients_addFromCatalog.
  - intros ingredient ->. apply syncIngredientToBackend_failed_add.
Qed.

Lemma remote_failures_keep_list_witness :
  snd (syncIngredientToBackend true noServer gin Add
         (loadedScreen [mint; gin; rum]))
  = pushWarning "Failed to sync ingredient add:"
      (pushRequest (POST_pantry "Gin" (1 # 2))
         (loadedScreen [mint; gin; rum])).
Proof.
  apply (proj2 (proj2 (proj2 (proj2
           (remote_failures_keep_list true noServer sameName imageOf
              (loadedScreen [mint; gin; rum])))))
           gin); reflexivity.
Defined.

(** ** Rename *)

Lemma confirmRename_unchanged_name normalizeIngredient ingredientImageUrl st it :
  renamingItem st = Some it ->
  Js.trim (newName st) = name it ->
  let st' := confirmRename normalizeIngredient ingredientImageUrl st in
  ingredients st' = ingredients st /\ toast st' = toast st.
Proof.
  intros Hit Hname. unfold confirmRename. rewrite Hit.
  destruct (negb (Js.truthy_string (Js.trim (newName st)))); [auto|].
  rewrite Hname, String.eqb_refl. auto.
Qed.

(** C7.  Opening the rename dialog on an entry and confirming a text whose
    trimmed form is the entry's name leaves the list as it was, every field
    of every entry included, and records no toast. *)
Theorem confirmRename_same_name_is_noop :
  forall normalizeIngredient ingredientImageUrl st k e typed,
    find (hasId k) (ingredients st) = Some e ->
    Js.trim typed = name e ->
    let st' :=
      confirmRename normalizeIngredient ingredientImageUrl
        (setNewName typed (handleRename k st)) in
    ingredients st' = ingredients st /\ toast st' = toast st.
Proof.
  intros normalizeIngredient ingredientImageUrl st k e typed Hfind Htrim.
  unfold handleRename. rewrite Hfind.
  exact (confirmRename_unchanged_name normalizeIngredient ingredientImageUrl
           (setNewName typed
              (setSheet None false (setRename true (Some e) (name e) st)))
           e eq_refl Htrim).
Qed.

Lemma confirmRename_same_name_is_noop_witness :
  let st := loadedScreen [mint; gin; rum] in
  let st' :=
    confirmRename sameName imageOf
      (setNewName "  Gin " (handleRename "g1" st)) in
  ingredients st' = ingredients st /\ toast st' = toast st.
Proof.
  apply (confirmRename_same_name_is_noop sameName
           imageOf (loadedScreen [mint; gin; rum]) "g1" gin "  Gin ");
    reflexivity.
Defined.

(** ** Mark purchased, the whole shopping list *)



(** ** The sync pass and the quantity of a matched entry *)

(** Within one pass, the update of a matched entry whose quantity differs
    goes to the server id recorded for the local id before the pass: with
    one recorded there is exactly one PUT, with none there is no request at
    all.  The id found by name is recorded only afterwards. *)
Lemma syncOwned_update_needs_mapping
    api pantryItems backendMap ingredient backendId backendItem st :
  owned ingredient = true ->
  Js.Map_get (Js.toLowerCase (name ingredient)) backendMap = Some backendId ->
  Js.truthy_num backendId = true ->
  find (fun p => (PantryItem.id p =? backendId)%Z) pantryItems
  = Some backendItem ->
  quantityDiffers backendItem ingredient = true ->
  let st' := snd (syncOwned true api pantryItems backendMap ingredient st) in
  (forall known,
      Js.Map_get (id ingredient) (backendIngredientMap st) = Some known ->
      Js.truthy_num known = true ->
      requests st'
      = (requests st
           ++ [PUT_pantry known (Js.nullish (qty ingredient) 1)])%list)
  /\ (Js.Map_get (id ingredient) (backendIngredientMap st) = None ->
      requests st' = requests st)
  /\ Js.Map_get (id ingredient) (backendIngredientMap st') = Some backendId.
Proof.
  intros Ho Hget Htruthy Hfind Hdiff.
  assert (Hset : forall (m : Js.Map Z) k v, Js.Map_get k (Js.Map_set k v m) = Some v).
  { induction m as [|[k' v'] m IH]; intros k v; simpl.
    - now rewrite String.eqb_refl.
    - destruct (k' =? k)%string eqn:E; simpl.
      + now rewrite String.eqb_refl.
      + now rewrite E. }
  unfold syncOwned. rewrite Hget, Htruthy, Hfind, Hdiff.
  unfold syncIngredientToBackend. rewrite Ho. simpl.
  destruct st; simpl in *.
  cbv [bind try_catch gets]. simpl.
  destruct (Js.Map_get (id ingredient) backendIngredientMap0) as [known|] eqn:Hk.
  - destruct (Js.truthy_num known) eqn:Ht.
    + cbv [put bind call]. simpl.
      destruct (api requests0 (PUT_pantry known (Js.nullish (qty ingredient) 1)));
        simpl;
        (split; [intros ? [= <-] _; reflexivity
                | split; [discriminate | apply Hset]]).
    + simpl. split; [intros ? [= <-]; congruence|].
      split; [discriminate | apply Hset].
  - simpl. split; [discriminate|]. split; [reflexivity | apply Hset].
Qed.

(** C1, the code at the failing input.  A local owned "Lime" at 0.5 whose
    id has no server id recorded yet, against a remote "Lime" at 0.9: the
    pass fetches the pantry and issues nothing else, neither update nor
    create; all it does is record the server id. *)
Theorem syncToBackend_unmapped_lime_issues_no_update :
  forall api normalizeIngredient st lime,
    loading st = false ->
    ingredients st = [lime] ->
    name lime = "Lime" ->
    owned lime = true ->
    qty lime = Some (1 # 2) ->
    backendIngredientMap st = [] ->
    api (requests st) GET_pantry = Rows [limeRow] ->
    displayName (normalizeIngredient "Lime") = "Lime" ->
    let st' := snd (syncToBackend true api normalizeIngredient st) in
    requests st' = (requests st ++ [GET_pantry])%list
    /\ backendIngredientMap st' = [(id lime, 7%Z)]
    /\ warnings st' = warnings st.
Proof.
  intros api norm st lime Hload Hing Hname Howned Hqty Hmap Hapi Hnorm.
  destruct st, lime; simpl in *; subst.
  unfold syncToBackend. simpl.
  cbv [try_catch bind get call gets]. simpl. rewrite Hapi. simpl.
  unfold syncOwned, buildBackendMap. simpl. rewrite Hnorm. simpl.
  unfold hasId. simpl. rewrite String.eqb_refl. simpl.
  repeat split.
Qed.

Lemma syncToBackend_unmapped_lime_issues_no_update_witness :
  let st' :=
    snd (syncToBackend true limeServer sameName
           (loadedScreen [limeHalf "1700000000000"])) in
  requests st' = [GET_pantry]
  /\ backendIngredientMap st' = [("1700000000000", 7%Z)]
  /\ warnings st' = [].
Proof.
  apply (syncToBackend_unmapped_lime_issues_no_update limeServer sameName
           (loadedScreen [limeHalf "1700000000000"])
           (limeHalf "1700000000000"));
    reflexivity.
Defined.

(** How the screen gets there: "Lime" is added at 0.5 on the cabinet tab
    while the server rejects the create, so no server id is recorded; the
    pass that follows finds the remote "Lime" and sends no update. *)
Example unmapped_lime_arises :
  let st1 :=
    snd (addFromCatalog true rejectingServer sameName imageOf
           "Lime" 1700000000000 (1 # 3) (1 # 2) (loadedScreen [])) in
  map name (ingredients st1) = ["Lime"]
  /\ map owned (ingredients st1) = [true]
  /\ map qty (ingredients st1) = [Some (1 # 2)]
  /\ backendIngredientMap st1 = []
  /\ requests st1 = [POST_pantry "Lime" (1 # 2)]
  /\ requests (snd (syncToBackend true rejectingServer sameName st1))
     = [POST_pantry "Lime" (1 # 2); GET_pantry].
Proof. repeat split. Qed.

(** The same pass once the id is recorded: one update, no create. *)
Example syncToBackend_mapped_lime_issues_one_update :
  requests
    (snd (syncToBackend true limeServer sameName
            (setBackendIngredientMap (fun _ => [("db_7", 7%Z)])
               (loadedScreen [limeHalf "db_7"]))))
  = [GET_pantry; PUT_pantry 7 (1 # 2)].
Proof. reflexivity. Qed.

(** ** The initial load *)

Lemma loadFromCache_throws JSON_parse st text cached :
  asyncStorage st = Some text ->
  Js.truthy_string text = true ->
  JSON_parse text = Some cached ->
  loadFromCache JSON_parse st
  = (Throw (ReferenceError "existingIngredients"), st).
Proof.
  intros Hraw Htext Hparse. unfold loadFromCache, bind, gets.
  rewrite Hraw, Htext, Hparse. reflexivity.
Qed.

Lemma loadFromCache_keeps JSON_parse st :
  ingredients (snd (loadFromCache JSON_parse st)) = ingredients st
  /\ asyncStorage (snd (loadFromCache JSON_parse st)) = asyncStorage st
  /\ warnings (snd (loadFromCache JSON_parse st)) = warnings st
  /\ requests (snd (loadFromCache JSON_parse st)) = requests st.
Proof.
  unfold loadFromCache, bind, gets.
  destruct (asyncStorage st) as [text|] eqn:Hraw;
    [|repeat split; assumption].
  destruct (Js.truthy_string text); [|repeat split; assumption].
  destruct (JSON_parse text); simpl; repeat split; assumption.
Qed.

(** C3, the code at the failing input.  When the load falls back to the
    cache (not authenticated, the fetch failed, or the pantry is empty) and
    the cache holds a text that parses to an array, the cache branch reads
    an identifier that is bound nowhere: the ReferenceError is caught and
    logged, and the in-memory list stays as it was, the empty list at
    mount.  No cached entry reaches it. *)
Theorem loadCabinet_cache_branch_keeps_list :
  forall isAuthenticated api normalizeIngredient ingredientImageUrl
         JSON_stringify JSON_parse st text cached,
    isAuthenticated = false
    \/ api (requests st) GET_pantry = Failed
    \/ api (requests st) GET_pantry = Rows [] ->
    asyncStorage st = Some text ->
    Js.truthy_string text = true ->
    JSON_parse text = Some cached ->
    let st' :=
      snd (loadCabinet isAuthenticated api normalizeIngredient
             ingredientImageUrl JSON_stringify JSON_parse st) in
    fst (loadFromCache JSON_parse st)
    = Throw (ReferenceError "existingIngredients")
    /\ ingredients st' = ingredients st
    /\ last (warnings st') "" = "Failed to load cabinet:"
    /\ loading st' = false.
Proof.
  intros isAuth api norm img str parse st text cached Hfall Hraw Htext Hparse.
  split; [now rewrite (loadFromCache_throws parse st text cached)|].
  destruct st; simpl in *; subst.
  unfold loadCabinet, loadFromDatabase.
  destruct isAuth.
  - destruct Hfall as [Hf|[Hf|Hf]]; [discriminate| |];
      cbv [finally try_catch bind modify get call gets ret warn]; simpl;
      rewrite Hf; simpl;
      unfold loadFromCache; cbv [bind gets]; simpl;
      rewrite Htext, Hparse; simpl;
      (repeat split; apply last_last).
  - cbv [finally try_catch bind modify ret warn]; simpl.
    unfold loadFromCache; cbv [bind gets]; simpl.
    rewrite Htext, Hparse; simpl.
    repeat split; apply last_last.
Qed.

Lemma loadCabinet_cache_branch_keeps_list_witness :
  let st' :=
    snd (loadCabinet false noServer sameName
           imageOf (fun _ => "[]") parseCached
           (initialScreen (Some cachedText))) in
  fst (loadFromCache parseCached (initialScreen (Some cachedText)))
  = Throw (ReferenceError "existingIngredients")
  /\ ingredients st' = []
  /\ last (warnings st') "" = "Failed to load cabinet:"
  /\ loading st' = false.
Proof.
  apply (loadCabinet_cache_branch_keeps_list false noServer
           sameName imageOf (fun _ => "[]")
           parseCached (initialScreen (Some cachedText)) cachedText [rum]);
    [left| | |]; reflexivity.
Defined.

(** C4, the code at the failing input.  Authenticated, with a non-empty
    pantry: every row becomes an entry with id ["db_" + id], owned, with the
    row's quantity, and this set replaces the in-memory list.  The write of
    the cache that follows reads an identifier that is bound nowhere: the
    ReferenceError is caught and logged as a failed load, and the load
    leaves the cache as it found it. *)
Theorem loadCabinet_database_branch_skips_cache :
  forall api normalizeIngredient ingredientImageUrl JSON_stringify JSON_parse
         st items,
    api (requests st) GET_pantry = Rows items ->
    items <> [] ->
    let st' :=
      snd (loadCabinet true api normalizeIngredient ingredientImageUrl
             JSON_stringify JSON_parse st) in
    ingredients st' = map (toLocal normalizeIngredient ingredientImageUrl) items
    /\ (forall item, In item items ->
          exists e, In e (ingredients st')
                    /\ id e = "db_" ++ Js.to_string (PantryItem.id item)
                    /\ owned e = true
                    /\ qty e = PantryItem.quantity item)
    /\ asyncStorage st' = asyncStorage st
    /\ In "Failed to load from database, using cache:" (warnings st').
Proof.
  intros api norm img str parse st items Hapi Hne.
  destruct items as [|item items]; [congruence|].
  assert (Hgoal :
    ingredients
      (snd (loadCabinet true api norm img str parse st))
    = map (toLocal norm img) (item :: items)
    /\ asyncStorage (snd (loadCabinet true api norm img str parse st))
       = asyncStorage st
    /\ In "Failed to load from database, using cache:"
         (warnings (snd (loadCabinet true api norm img str parse st)))).
  { destruct st; simpl in *.
    unfold loadCabinet, loadFromDatabase.
    cbv [finally try_catch bind modify get call gets ret warn
         mergedIngredients throw].
    simpl. rewrite Hapi. simpl.
    match goal with
    | |- context [loadFromCache parse ?s] =>
        destruct (loadFromCache_keeps parse s) as (Hi & Hc & Hw & _);
        destruct (loadFromCache parse s) as [[[]|e] stB]
    end; simpl in *; rewrite Hi, Hc, Hw;
      (split; [reflexivity|]; split; [reflexivity|]);
      rewrite ?in_app_iff; simpl; intuition. }
  destruct Hgoal as (Hing & Hcache & Hwarn).
  split; [exact Hing|]. split; [|split; assumption].
  intros it Hin. exists (toLocal norm img it). split.
  - rewrite Hing. now apply in_map.
  - repeat split.
Qed.

Lemma loadCabinet_database_branch_skips_cache_witness :
  let st' :=
    snd (loadCabinet true limeServer sameName
           imageOf (fun _ => "[]") parseCached (initialScreen None)) in
  ingredients st'
  = map (toLocal sameName imageOf) [limeRow]
  /\ (forall item, In item [limeRow] ->
        exists e, In e (ingredients st')
                  /\ id e = "db_" ++ Js.to_string (PantryItem.id item)
                  /\ owned e = true
                  /\ qty e = PantryItem.quantity item)
  /\ asyncStorage st' = None
  /\ In "Failed to load from database, using cache:" (warnings st').
Proof.
  apply (loadCabinet_database_branch_skips_cache limeServer
           sameName imageOf (fun _ => "[]")
           parseCached (initialScreen None) [limeRow]);
    [reflexivity|discriminate].
Defined.

(** The list reaches the cache later, through the debounced write. *)
Example saveToCache_after_load :
  let loaded :=
    snd (loadCabinet true limeServer sameName
           imageOf (fun _ => "[]") parseCached (initialScreen None)) in
  forall JSON_stringify,
    asyncStorage (snd (saveToCache JSON_stringify loaded))
    = Some (JSON_stringify (ingredients loaded)).
Proof. reflexivity. Qed.

(** ** The displayed list *)

Lemma sort_insert_length {A : Type} (cmp : A -> A -> Z) x (xs : list A) :
  List.length (Js.sort_insert cmp x xs) = S (List.length xs).
Proof.
  induction xs as [|y xs IH]; simpl; [reflexivity|].
  destruct (0 <? cmp x y)%Z; simpl; [now rewrite IH|reflexivity].
Qed.

Lemma sort_length {A : Type} (cmp : A -> A -> Z) (xs : list A) :
  List.length (Js.sort cmp xs) = List.length xs.
Proof.
  unfold Js.sort. induction xs as [|x xs IH]; simpl; [reflexivity|].
  now rewrite sort_insert_length, IH.
Qed.

(** Sorting shows as many rows as the filter lets through, in either
    direction: the gate of [markPurchased] depends on the query and the
    category only. *)
Lemma shoppingItems_length localeCompare st :
  List.length (shoppingItems localeCompare st)
  = List.length
      (filterByQueryAndCategory st
         (filter (fun i => Js.truthy (wanted i)) (ingredients st))).
Proof.
  unfold shoppingItems, sortByName.
  destruct (sortAsc st); [|rewrite length_rev]; apply sort_length.
Qed.

Example cabinetItems_filter_lim :
  map name
    (cabinetItems byteCompare
       (setQuery "lim"
          (loadedScreen
             [mint; with_name "Limoncello" gin; with_name "Lime" rum])))
  = ["Lime"; "Limoncello"].
Proof. reflexivity. Qed.

(** * Further properties of the handlers *)

(** ** Updates of the entries under one id *)

Section MapIf.

Context {A : Type}.
Implicit Types (p : A -> bool) (f g : A -> A) (l : list A).

Lemma map_if_absent p f l :
  find p l = None -> map (fun y => if p y then f y else y) l = l.
Proof.
  induction l as [|y l IH]; simpl; [reflexivity|].
  destruct (p y); [discriminate|]. intros H. now rewrite IH.
Qed.

Lemma map_if_other p f l n x :
  nth_error l n = Some x -> p x = false ->
  nth_error (map (fun y => if p y then f y else y) l) n = Some x.
Proof.
  intros Hn Hp. rewrite nth_error_map, Hn. simpl. now rewrite Hp.
Qed.

Lemma map_if_key {K : Type} (key : A -> K) p f l :
  (forall y, key (f y) = key y) ->
  map key (map (fun y => if p y then f y else y) l) = map key l.
Proof.
  intros Hkey. rewrite map_map. apply map_ext. intros y.
  destruct (p y); auto.
Qed.

Lemma map_if_undo p f g l :
  (forall y, p (f y) = p y) ->
  (forall y, In y l -> p y = true -> g (f y) = y) ->
  map (fun y => if p y then g y else y)
      (map (fun y => if p y then f y else y) l) = l.
Proof.
  intros Hp Hg. rewrite map_map. rewrite <- (map_id l) at 2.
  apply map_ext_in. intros y Hy. destruct (p y) eqn:E.
  - rewrite Hp, E. auto.
  - now rewrite E.
Qed.

Lemma findIndex_absent p l : find p l = None -> Js.findIndex p l = None.
Proof.
  induction l as [|y l IH]; simpl; [reflexivity|].
  destruct (p y); [discriminate|]. intros H. now rewrite IH.
Qed.

End MapIf.

Lemma setIngredients_same f st :
  f (ingredients st) = ingredients st -> setIngredients f st = st.
Proof. destruct st; simpl; unfold setIngredients; simpl. now intros ->. Qed.

(** An id the list does not hold: no handler changes anything, no toast is
    recorded, the rename dialog does not open and [adjustQty] sends
    nothing. *)
Theorem unknown_id_changes_nothing :
  forall st k,
    find (hasId k) (ingredients st) = None ->
    deleteIngredient k st = st
    /\ removeFromCabinet k st = st
    /\ removeFromShopping k st = st
    /\ markPurchasedSingle k st = st
    /\ handleRename k st = st
    /\ toggleWanted k st = st
    /\ addToShopping k st = st
    /\ (forall isAuthenticated api q,
          adjustQty isAuthenticated api k q st = (Ret tt, st)).
Proof.
  intros st k Hnone.
  unfold deleteIngredient, removeFromCabinet, removeFromShopping,
    markPurchasedSingle, handleRename.
  rewrite (findIndex_absent _ _ Hnone), Hnone.
  repeat (split; [reflexivity|]).
  split; [|split].
  - apply setIngredients_same, map_if_absent, Hnone.
  - apply setIngredients_same, map_if_absent, Hnone.
  - intros isAuthenticated api q. unfold adjustQty, bind, modify, gets.
    rewrite (setIngredients_same (adjustQtyLocal k q) st)
      by (apply map_if_absent, Hnone).
    now rewrite Hnone.
Qed.

Lemma unknown_id_changes_nothing_witness :
  deleteIngredient "zz" (loadedScreen [mint; gin; rum])
  = loadedScreen [mint; gin; rum]
  /\ adjustQty true noServer "zz" (1 # 2) (loadedScreen [mint; gin; rum])
     = (Ret tt, loadedScreen [mint; gin; rum]).
Proof.
  destruct (unknown_id_changes_nothing (loadedScreen [mint; gin; rum]) "zz"
              eq_refl) as (Hdel & _ & _ & _ & _ & _ & _ & Hadj).
  split; [exact Hdel|exact (Hadj true noServer (1 # 2))].
Defined.

Lemma keeps_others_map k (f : Ingredient -> Ingredient) l :
  (forall y, id (f y) = id y) ->
  keeps_others k l (map (fun y => if hasId k y then f y else y) l).
Proof.
  intros Hid. split.
  - now apply map_if_key.
  - intros n e. apply map_if_other.
Qed.

Lemma keeps_others_refl k l : keeps_others k l l.
Proof. split; auto. Qed.

(** The handlers that act on one id never add, drop or reorder an entry
    and never touch an entry under another id; marking the whole shopping
    list and renaming keep the ids in order too. *)
Theorem handlers_keep_ids_and_other_entries :
  forall normalizeIngredient ingredientImageUrl localeCompare st k,
    keeps_others k (ingredients st) (ingredients (toggleWanted k st))
    /\ keeps_others k (ingredients st) (ingredients (addToShopping k st))
    /\ keeps_others k (ingredients st) (ingredients (removeFromCabinet k st))
    /\ keeps_others k (ingredients st) (ingredients (removeFromShopping k st))
    /\ keeps_others k (ingredients st) (ingredients (markPurchasedSingle k st))
    /\ (forall isAuthenticated api q,
          keeps_others k (ingredients st)
            (ingredients (snd (adjustQty isAuthenticated api k q st))))
    /\ map id (ingredients (markPurchased localeCompare st))
       = map id (ingredients st)
    /\ map id (ingredients
                 (confirmRename normalizeIngredient ingredientImageUrl st))
       = map id (ingredients st).
Proof.
  intros norm img lc st k.
  split; [apply (keeps_others_map k); reflexivity|].
  split; [apply (keeps_others_map k); reflexivity|].
  split.
  { unfold removeFromCabinet.
    destruct (find (hasId k) (ingredients st));
      [apply (keeps_others_map k); reflexivity|apply keeps_others_refl]. }
  split.
  { unfold removeFromShopping.
    destruct (find (hasId k) (ingredients st));
      [apply (keeps_others_map k); reflexivity|apply keeps_others_refl]. }
  split.
  { unfold markPurchasedSingle.
    destruct (find (hasId k) (ingredients st));
      [apply (keeps_others_map k); reflexivity|apply keeps_others_refl]. }
  split.
  { intros isAuthenticated api q. rewrite ingredients_adjustQty.
    apply (keeps_others_map k); reflexivity. }
  split.
  { unfold markPurchased.
    destruct (List.length (shoppingItems lc st) =? 0)%nat; [reflexivity|].
    simpl. now apply map_if_key. }
  unfold confirmRename.
  destruct (renamingItem st) as [renaming|]; [|reflexivity].
  destruct (negb (Js.truthy_string (Js.trim (newName st)))); [reflexivity|].
  destruct (Js.trim (newName st) =? name renaming)%string; [reflexivity|].
  simpl. now apply map_if_key.
Qed.

(** ** Removing from a tab and taking it back *)

Lemma with_owned_back i : owned i = true -> with_owned true (with_owned false i) = i.
Proof. destruct i; simpl; now intros ->. Qed.

Lemma with_wanted_back i :
  wanted i = Some true -> with_wanted true (with_wanted false i) = i.
Proof. destruct i; simpl; now intros ->. Qed.

(** [removeFromCabinet] makes every entry under the id not owned, and its
    undo gives the list back when those entries were owned;
    [removeFromShopping] does the same with [wanted]. *)
Theorem remove_then_undo_restores :
  forall st k e,
    find (hasId k) (ingredients st) = Some e ->
    (forall x, In x (ingredients (removeFromCabinet k st)) ->
               hasId k x = true -> owned x = false)
    /\ ((forall x, In x (ingredients st) -> hasId k x = true ->
                   owned x = true) ->
        ingredients (pressUndo (removeFromCabinet k st)) = ingredients st)
    /\ (forall x, In x (ingredients (removeFromShopping k st)) ->
                  hasId k x = true -> wanted x = Some false)
    /\ ((forall x, In x (ingredients st) -> hasId k x = true ->
                   wanted x = Some true) ->
        ingredients (pressUndo (removeFromShopping k st)) = ingredients st).
Proof.
  intros st k e Hfind.
  unfold removeFromCabinet, removeFromShopping. rewrite Hfind.
  split; [|split; [|split]].
  - simpl. intros x Hin Hx. apply in_map_iff in Hin as (y & <- & _).
    destruct (hasId k y) eqn:E; [reflexivity|]. simpl in Hx. congruence.
  - intros Howned. unfold pressUndo. simpl.
    apply map_if_undo; [reflexivity|].
    intros y Hy Hk. apply with_owned_back. auto.
  - simpl. intros x Hin Hx. apply in_map_iff in Hin as (y & <- & _).
    destruct (hasId k y) eqn:E; [reflexivity|]. simpl in Hx. congruence.
  - intros Hwanted. unfold pressUndo. simpl.
    apply map_if_undo; [reflexivity|].
    intros y Hy Hk. apply with_wanted_back. auto.
Qed.

Lemma remove_then_undo_restores_witness :
  ingredients (pressUndo (removeFromCabinet "g1" (loadedScreen [mint; gin; rum])))
  = [mint; gin; rum]
  /\ ingredients
       (pressUndo (removeFromShopping "2" (loadedScreen [mint; limeWanted])))
     = [mint; limeWanted].
Proof.
  split.
  - apply (proj1 (proj2 (remove_then_undo_restores
                           (loadedScreen [mint; gin; rum]) "g1" gin eq_refl))).
    intros x [<-|[<-|[<-|[]]]]; simpl; intros H;
      reflexivity || discriminate.
  - apply (proj2 (proj2 (proj2 (remove_then_undo_restores
                           (loadedScreen [mint; limeWanted]) "2" limeWanted
                           eq_refl)))).
    intros x [<-|[<-|[]]]; simpl; intros H; reflexivity || discriminate.
Defined.

(** ** The shopping flag *)



(** ** Rename and its undo *)




(** ** The search box *)

Lemma lower_lower c : Js.lower (Js.lower c) = Js.lower c.
Proof. destruct c as [[] [] [] [] [] [] [] []]; reflexivity. Qed.

Lemma is_space_lower c : Js.is_space (Js.lower c) = Js.is_space c.
Proof. destruct c as [[] [] [] [] [] [] [] []]; reflexivity. Qed.

Lemma toLowerCase_idempotent s :
  Js.toLowerCase (Js.toLowerCase s) = Js.toLowerCase s.
Proof. induction s; simpl; [reflexivity|]. now rewrite lower_lower, IHs. Qed.

Lemma toLowerCase_trimStart s :
  Js.toLowerCase (Js.trimStart s) = Js.trimStart (Js.toLowerCase s).
Proof.
  induction s as [|c s IH]; simpl; [reflexivity|].
  rewrite is_space_lower. now destruct (Js.is_space c).
Qed.

Lemma toLowerCase_trimEnd s :
  Js.toLowerCase (Js.trimEnd s) = Js.trimEnd (Js.toLowerCase s).
Proof.
  induction s as [|c s IH]; simpl; [reflexivity|].
  rewrite <- IH, is_space_lower.
  destruct (Js.trimEnd s); simpl; [now destruct (Js.is_space c)|reflexivity].
Qed.

Lemma toLowerCase_trim s : Js.toLowerCase (Js.trim s) = Js.trim (Js.toLowerCase s).
Proof. unfold Js.trim. now rewrite toLowerCase_trimEnd, toLowerCase_trimStart. Qed.

Lemma truthy_string_toLowerCase s :
  Js.truthy_string (Js.toLowerCase s) = Js.truthy_string s.
Proof. now destruct s. Qed.

(** The search does not look at the case of what is typed: two queries
    that differ only in case show the same rows. *)
Theorem search_ignores_case_of_query :
  forall st q1 q2 items,
    Js.toLowerCase q1 = Js.toLowerCase q2 ->
    filterByQueryAndCategory (setQuery q1 st) items
    = filterByQueryAndCategory (setQuery q2 st) items.
Proof.
  intros st q1 q2 items Hq. unfold filterByQueryAndCategory. simpl.
  rewrite <- (truthy_string_toLowerCase (Js.trim q1)).
  rewrite <- (truthy_string_toLowerCase (Js.trim q2)).
  now rewrite !toLowerCase_trim, Hq.
Qed.

Lemma search_ignores_case_of_query_witness :
  filterByQueryAndCategory
    (setQuery " LiM" (loadedScreen [mint; limeWanted; ginWanted]))
    [mint; limeWanted; ginWanted]
  = filterByQueryAndCategory
      (setQuery " lIm" (loadedScreen [mint; limeWanted; ginWanted]))
      [mint; limeWanted; ginWanted].
Proof.
  apply (search_ignores_case_of_query
           (loadedScreen [mint; limeWanted; ginWanted]) " LiM" " lIm").
  reflexivity.
Defined.

(** ** Sorting by name *)

Section Sorting.

Context {A : Type}.
Variable cmp : A -> A -> Z.

Lemma sort_insert_perm x (xs : list A) :
  Permutation (Js.sort_insert cmp x xs) (x :: xs).
Proof.
  induction xs as [|y xs IH]; simpl; [reflexivity|].
  destruct (0 <? cmp x y)%Z; [|reflexivity].
  rewrite IH. apply perm_swap.
Qed.

Lemma sort_perm (xs : list A) : Permutation (Js.sort cmp xs) xs.
Proof.
  unfold Js.sort. induction xs as [|x xs IH]; simpl; [reflexivity|].
  rewrite sort_insert_perm. now constructor.
Qed.

Hypothesis cmp_total : forall a b, (cmp a b <= 0)%Z \/ (cmp b a <= 0)%Z.
Hypothesis cmp_trans :
  forall a b c, (cmp a b <= 0)%Z -> (cmp b c <= 0)%Z -> (cmp a c <= 0)%Z.

Lemma sort_insert_sorted x (xs : list A) :
  StronglySorted (fun a b => (cmp a b <= 0)%Z) xs ->
  StronglySorted (fun a b => (cmp a b <= 0)%Z) (Js.sort_insert cmp x xs).
Proof.
  induction 1 as [|y xs Hs IH Hy]; simpl.
  - repeat constructor.
  - destruct (0 <? cmp x y)%Z eqn:E.
    + constructor; [exact IH|].
      apply (Permutation_Forall (Permutation_sym (sort_insert_perm x xs))).
      constructor; [|exact Hy].
      apply Z.ltb_lt in E. destruct (cmp_total y x); [assumption|lia].
    + apply Z.ltb_ge in E. constructor; [now constructor|].
      constructor; [exact E|].
      eapply Forall_impl; [|exact Hy]. intros z Hz. now apply (cmp_trans x y z).
Qed.

Lemma sort_sorted (xs : list A) :
  StronglySorted (fun a b => (cmp a b <= 0)%Z) (Js.sort cmp xs).
Proof.
  unfold Js.sort. induction xs as [|x xs IH]; simpl.
  - constructor.
  - now apply sort_insert_sorted.
Qed.

End Sorting.

Lemma StronglySorted_rev {A : Type} (R : A -> A -> Prop) (l : list A) :
  StronglySorted R l -> StronglySorted (fun a b => R b a) (rev l).
Proof.
  induction 1 as [|x l Hs IH Hx]; simpl; [constructor|].
  assert (Hall : Forall (fun a => R x a) (rev l)).
  { apply Forall_forall. intros a Ha. apply in_rev in Ha.
    rewrite Forall_forall in Hx. auto. }
  clear Hs Hx. induction IH as [|y r Hr IHr Hy]; simpl.
  - repeat constructor.
  - inversion Hall; subst. constructor; [auto|].
    apply Forall_app. split; [assumption|]. repeat constructor. assumption.
Qed.

Lemma sortByName_perm localeCompare st items :
  Permutation (sortByName localeCompare st items) items.
Proof.
  unfold sortByName. destruct (sortAsc st).
  - apply sort_perm.
  - rewrite <- Permutation_rev. apply sort_perm.
Qed.

(** [sortByName] shows the rows it is given, each once, and, for an order
    that is total and transitive, in that order of their names: ascending,
    or descending when the toggle is off. *)
Theorem sortByName_sorts :
  forall localeCompare st items,
    Permutation (sortByName localeCompare st items) items
    /\ ((forall a b, (localeCompare a b <= 0)%Z \/ (localeCompare b a <= 0)%Z) ->
        (forall a b c, (localeCompare a b <= 0)%Z ->
                       (localeCompare b c <= 0)%Z ->
                       (localeCompare a c <= 0)%Z) ->
        StronglySorted
          (fun a b =>
             if sortAsc st
             then (localeCompare (name a) (name b) <= 0)%Z
             else (localeCompare (name b) (name a) <= 0)%Z)
          (sortByName localeCompare st items)).
Proof.
  intros lc st items. split; [apply sortByName_perm|].
  unfold sortByName.
  - intros Htotal Htrans.
    pose proof (sort_sorted (fun a b => lc (name a) (name b))
                  (fun a b => Htotal (name a) (name b))
                  (fun a b c => Htrans (name a) (name b) (name c))
                  items) as Hsorted.
    destruct (sortAsc st); [exact Hsorted|].
    now apply StronglySorted_rev in Hsorted.
Qed.

Lemma sortByName_sorts_witness :
  StronglySorted
    (fun a b => (byLength (name a) (name b) <= 0)%Z)
    (sortByName byLength (loadedScreen []) [mint; gin; rum]).
Proof.
  apply (proj2 (sortByName_sorts byLength (loadedScreen [])
                  [mint; gin; rum])).
  - intros a b. unfold byLength. lia.
  - intros a b c. unfold byLength. lia.
Defined.

(** ** What the two tabs show *)

Lemma filterByQueryAndCategory_In st items e :
  In e (filterByQueryAndCategory st items) <-> In e items /\ passesFilter st e.
Proof.
  unfold filterByQueryAndCategory, passesFilter.
  destruct (Js.trim (query st)) as [|c q] eqn:Hq;
    destruct (String.eqb_spec (categoryFilter st) "All") as [Hc|Hc]; simpl;
    rewrite ?filter_In, ?String.eqb_eq; intuition congruence.
Qed.

Lemma filterByQueryAndCategory_all st items :
  Js.trim (query st) = "" -> categoryFilter st = "All" ->
  filterByQueryAndCategory st items = items.
Proof.
  intros Hq Hc. unfold filterByQueryAndCategory. now rewrite Hq, Hc.
Qed.

Lemma filterByQueryAndCategory_length st items :
  (List.length (filterByQueryAndCategory st items) <= List.length items)%nat.
Proof.
  unfold filterByQueryAndCategory.
  destruct (Js.truthy_string (Js.trim (query st)));
    destruct (negb (categoryFilter st =? "All")%string);
    repeat (etransitivity; [apply filter_length_le|]); auto.
Qed.

Lemma sortByName_length localeCompare st items :
  List.length (sortByName localeCompare st items) = List.length items.
Proof.
  apply Permutation_length, sortByName_perm.
Qed.

(** The cabinet tab shows exactly the owned entries that pass the search
    box and the category chips, the shopping tab exactly the wanted ones;
    neither shows more rows than its tab counts, and with no search and the
    chip ['All'] each shows as many. *)
Theorem tabs_show_filtered_entries :
  forall localeCompare st,
    (forall e, In e (cabinetItems localeCompare st)
               <-> In e (ingredients st) /\ owned e = true
                   /\ passesFilter st e)
    /\ (forall e, In e (shoppingItems localeCompare st)
                  <-> In e (ingredients st) /\ Js.truthy (wanted e) = true
                      /\ passesFilter st e)
    /\ (List.length (cabinetItems localeCompare st) <= ownedCount st)%nat
    /\ (List.length (shoppingItems localeCompare st) <= wantedCount st)%nat
    /\ (Js.trim (query st) = "" -> categoryFilter st = "All" ->
        List.length (cabinetItems localeCompare st) = ownedCount st
        /\ List.length (shoppingItems localeCompare st) = wantedCount st).
Proof.
  intros lc st. unfold cabinetItems, shoppingItems, ownedCount, wantedCount.
  split; [|split; [|split; [|split]]].
  - intros e. split.
    + intros H.
      apply (Permutation_in _ (sortByName_perm lc st _)) in H.
      apply filterByQueryAndCategory_In in H as [H Hp].
      apply filter_In in H. tauto.
    + intros (Hin & Ho & Hp).
      apply (Permutation_in _
               (Permutation_sym (sortByName_perm lc st _))).
      apply filterByQueryAndCategory_In. split; [|exact Hp].
      apply filter_In. tauto.
  - intros e. split.
    + intros H.
      apply (Permutation_in _ (sortByName_perm lc st _)) in H.
      apply filterByQueryAndCategory_In in H as [H Hp].
      apply filter_In in H. tauto.
    + intros (Hin & Ho & Hp).
      apply (Permutation_in _
               (Permutation_sym (sortByName_perm lc st _))).
      apply filterByQueryAndCategory_In. split; [|exact Hp].
      apply filter_In. tauto.
  - rewrite sortByName_length. apply filterByQueryAndCategory_length.
  - rewrite sortByName_length. apply filterByQueryAndCategory_length.
  - intros Hq Hc. rewrite !sortByName_length.
    now rewrite !filterByQueryAndCategory_all.
Qed.

Lemma tabs_show_filtered_entries_witness :
  List.length (cabinetItems byteCompare (loadedScreen [mint; gin; limeWanted]))
  = ownedCount (loadedScreen [mint; gin; limeWanted])
  /\ List.length
       (shoppingItems byteCompare (loadedScreen [mint; gin; limeWanted]))
     = wantedCount (loadedScreen [mint; gin; limeWanted]).
Proof.
  apply (proj2 (proj2 (proj2 (proj2
           (tabs_show_filtered_entries byteCompare
              (loadedScreen [mint; gin; limeWanted]))))));
    reflexivity.
Defined.

(** ** The category chips *)

Lemma Set_add_spec x s :
  (NoDup s -> NoDup (Js.Set_add x s))
  /\ (forall c, In c (Js.Set_add x s) <-> In c s \/ c = x).
Proof.
  unfold Js.Set_add. destruct (existsb (String.eqb x) s) eqn:E.
  - split; [auto|]. intros c. split; [auto|]. intros [H| ->]; [exact H|].
    apply existsb_exists in E as (y & Hy & Hxy).
    apply String.eqb_eq in Hxy. now subst.
  - split.
    + intros Hnd. apply (NoDup_Add (Add_app x s [])).
      rewrite app_nil_r. split; [exact Hnd|]. intros Hin.
      rewrite existsb_false_forall in E. specialize (E x Hin).
      now rewrite String.eqb_refl in E.
    + intros c. rewrite in_app_iff. simpl. intuition.
Qed.

Lemma categories_fold l acc :
  let set := fold_left (fun set i => Js.Set_add (category i) set) l acc in
  (NoDup acc -> NoDup set)
  /\ (forall c, In c set
                <-> In c acc \/ exists e, In e l /\ category e = c).
Proof.
  revert acc. induction l as [|i l IH]; intros acc; simpl.
  - split; [auto|]. intros c. split; [auto|]. now intros [H|(e & [] & _)].
  - destruct (IH (Js.Set_add (category i) acc)) as [Hnd Hin].
    destruct (Set_add_spec (category i) acc) as [Hnd' Hin'].
    split; [auto|]. intros c. rewrite Hin, Hin'. split.
    + intros [[H| ->]|(e & He & Hc)]; eauto.
    + intros [H|(e & [<-|He] & Hc)]; eauto.
Qed.

(** The chips are ['All'] followed by the categories of the entries, each
    exactly once and none that no entry has. *)
Theorem categories_are_those_in_use :
  forall st,
    exists chips,
      categories st = "All" :: chips
      /\ NoDup chips
      /\ forall c, In c chips
                   <-> exists e, In e (ingredients st) /\ category e = c.
Proof.
  intros st. eexists. split; [reflexivity|].
  destruct (categories_fold (ingredients st) []) as [Hnd Hin].
  split; [apply Hnd; constructor|].
  intros c. rewrite Hin. simpl. tauto.
Qed.

(** ** After marking the shopping list purchased *)

Lemma filterByQueryAndCategory_nil st : filterByQueryAndCategory st [] = [].
Proof.
  unfold filterByQueryAndCategory.
  destruct (Js.truthy_string (Js.trim (query st)));
    destruct (negb (categoryFilter st =? "All")%string); reflexivity.
Qed.

Lemma purchased_not_wanted l :
  filter (fun i => Js.truthy (wanted i)) (map purchased l) = [].
Proof.
  induction l as [|i l IH]; simpl; [reflexivity|].
  unfold purchased at 1. destruct (Js.truthy (wanted i)) eqn:E; simpl.
  - exact IH.
  - now rewrite E.
Qed.

Lemma filter_map_comm {A B : Type} (f : B -> bool) (g : A -> B) (l : list A) :
  filter f (map g l) = map g (filter (fun x => f (g x)) l).
Proof.
  induction l as [|x l IH]; simpl; [reflexivity|].
  destruct (f (g x)); simpl; now rewrite IH.
Qed.

Lemma owned_purchased i :
  owned (purchased i) = owned i || Js.truthy (wanted i).
Proof.
  unfold purchased. destruct (Js.truthy (wanted i)); simpl.
  - now rewrite orb_true_r.
  - now rewrite orb_false_r.
Qed.

Lemma purchased_owned l :
  filter owned (map purchased l)
  = map purchased (filter (fun i => owned i || Js.truthy (wanted i)) l).
Proof.
  rewrite filter_map_comm. f_equal. apply filter_ext. intros i.
  apply owned_purchased.
Qed.

(** Once [markPurchased] has acted, nothing is left on the shopping list:
    the shopping count is 0, the cabinet counts every entry that was
    owned or wanted, and pressing the button again changes nothing. *)
Theorem markPurchased_empties_shopping_list :
  forall localeCompare st,
    markPurchased localeCompare (markPurchased localeCompare st)
    = markPurchased localeCompare st
    /\ (shoppingItems localeCompare st <> [] ->
        wantedCount (markPurchased localeCompare st) = 0%nat
        /\ shoppingItems localeCompare (markPurchased localeCompare st) = []
        /\ ownedCount (markPurchased localeCompare st)
           = List.length
               (filter (fun i => owned i || Js.truthy (wanted i))
                       (ingredients st))).
Proof.
  intros lc st.
  assert (Hact : shoppingItems lc st <> [] ->
                 markPurchased lc st = setIngredients (map purchased) st).
  { intros Hne. unfold markPurchased.
    destruct (shoppingItems lc st); [congruence|reflexivity]. }
  assert (Hempty : shoppingItems lc (setIngredients (map purchased) st) = []).
  { unfold shoppingItems. simpl. rewrite purchased_not_wanted.
    unfold sortByName, filterByQueryAndCategory. simpl.
    destruct (Js.truthy_string (Js.trim (query st)));
      destruct (negb (categoryFilter st =? "All")%string);
      destruct (sortAsc st); reflexivity. }
  split.
  - destruct (shoppingItems lc st) eqn:E.
    + assert (Hst : markPurchased lc st = st)
        by (unfold markPurchased; now rewrite E).
      now rewrite !Hst.
    + rewrite Hact by discriminate.
      unfold markPurchased at 1. now rewrite Hempty.
  - intros Hne. rewrite (Hact Hne). split; [|split].
    + unfold wantedCount. simpl. now rewrite purchased_not_wanted.
    + exact Hempty.
    + unfold ownedCount. simpl. now rewrite purchased_owned, length_map.
Qed.

Lemma markPurchased_empties_shopping_list_witness :
  let st := loadedScreen [mint; limeWanted; ginWanted] in
  wantedCount (markPurchased byteCompare st) = 0%nat
  /\ shoppingItems byteCompare (markPurchased byteCompare st) = []
  /\ ownedCount (markPurchased byteCompare st) = 3%nat.
Proof.
  apply (proj2 (markPurchased_empties_shopping_list byteCompare
                  (loadedScreen [mint; limeWanted; ginWanted]))).
  discriminate.
Defined.

(** ** Signed out *)

(** Without a session no handler and no effect of the screen sends a
    request or records a server id. *)
Theorem signed_out_sends_nothing :
  forall api normalizeIngredient ingredientImageUrl JSON_stringify JSON_parse
         st,
    let quiet (st' : Screen) :=
      requests st' = requests st
      /\ backendIngredientMap st' = backendIngredientMap st in
    (forall ingredient action,
        quiet (snd (syncIngredientToBackend false api ingredient action st)))
    /\ quiet (snd (syncToBackend false api normalizeIngredient st))
    /\ (forall k q, quiet (snd (adjustQty false api k q st)))
    /\ (forall itemName now random stepper,
          quiet (snd (addFromCatalog false api normalizeIngredient
                        ingredientImageUrl itemName now random stepper st)))
    /\ quiet (snd (loadCabinet false api normalizeIngredient
                     ingredientImageUrl JSON_stringify JSON_parse st)).
Proof.
  intros api norm img str parse st quiet. unfold quiet.
  split; [|split; [|split; [|split]]].
  - intros ingredient action. split; reflexivity.
  - unfold syncToBackend. rewrite orb_true_r. split; reflexivity.
  - intros k q. unfold adjustQty, bind, modify, gets. simpl.
    destruct (find (hasId k) (adjustQtyLocal k q (ingredients st)));
      split; reflexivity.
  - intros itemName now random stepper.
    unfold addFromCatalog, bind, modify, gets. simpl.
    rewrite andb_false_r. split; reflexivity.
  - unfold loadCabinet, loadFromDatabase.
    cbv [finally try_catch bind modify ret warn]. simpl.
    match goal with
    | |- context [loadFromCache parse ?s] =>
        destruct (loadFromCache_keeps parse s) as (_ & _ & _ & Hr);
        assert (Hm : backendIngredientMap (snd (loadFromCache parse s))
                     = backendIngredientMap s);
        [|destruct (loadFromCache parse s) as [[[]|e] stB]]
    end.
    + unfold loadFromCache, bind, gets. simpl.
      destruct (asyncStorage st) as [text|]; [|reflexivity].
      destruct (Js.truthy_string text); [|reflexivity].
      destruct (parse text); reflexivity.
    + simpl in *. now rewrite Hr, Hm.
    + simpl in *. now rewrite Hr, Hm.
Qed.

(** ** The load always finishes *)

(** Whatever the server answers and whatever the cache holds, the load
    returns normally and leaves the screen out of the loading state, so the
    cache write and the sync pass are no longer held back. *)
Theorem loadCabinet_always_finishes :
  forall isAuthenticated api normalizeIngredient ingredientImageUrl
         JSON_stringify JSON_parse st,
    let r := loadCabinet isAuthenticated api normalizeIngredient
               ingredientImageUrl JSON_stringify JSON_parse st in
    fst r = Ret tt /\ loading (snd r) = false.
Proof.
  intros isAuth api norm img str parse st. unfold loadCabinet, finally.
  match goal with
  | |- context [try_catch ?m ?h st] =>
      pose proof (try_catch_warn_returns m "Failed to load cabinet:" st) as H;
      change (fun _ : Exn => warn "Failed to load cabinet:") with h in H;
      destruct (try_catch m h st) as [o st']
  end.
  simpl in *. now subst.
Qed.

(** ** What reaches the server *)

Lemma run_call_failed api r st :
  api (requests st) r = Failed ->
  call api r st = (Throw (RequestFailed r), pushRequest r st).
Proof. unfold call. now intros ->. Qed.

Lemma run_call_ok api r st :
  api (requests st) r <> Failed ->
  call api r st = (Ret (api (requests st) r), pushRequest r st).
Proof. unfold call. destruct (api (requests st) r); congruence. Qed.

Lemma run_add api ingredient st :
  owned ingredient = true ->
  let request :=
    POST_pantry (name ingredient) (Js.nullish (qty ingredient) 1) in
  syncIngredientToBackend true api ingredient Add st
  = match api (requests st) request with
    | Created item =>
        (Ret tt,
         setBackendIngredientMap
           (Js.Map_set (id ingredient) (PantryItem.id item))
           (pushRequest request st))
    | _ =>
        (Ret tt,
         pushWarning "Failed to sync ingredient add:" (pushRequest request st))
    end.
Proof.
  intros Ho. unfold syncIngredientToBackend. rewrite Ho. simpl.
  unfold try_catch, post, bind, call.
  destruct (api (requests st) _); reflexivity.
Qed.

(** In the pass, an owned entry whose name no remote row carries, or only
    a row with the id 0, is created: one POST with its name and quantity (1
    when it has none).  The id of the answer is recorded under the local
    id; a rejected create records nothing and is logged. *)
Theorem syncOwned_creates_unmatched :
  forall api pantryItems backendMap ingredient st,
    owned ingredient = true ->
    Js.Map_get (Js.toLowerCase (name ingredient)) backendMap = None
    \/ Js.Map_get (Js.toLowerCase (name ingredient)) backendMap = Some 0%Z ->
    let request :=
      POST_pantry (name ingredient) (Js.nullish (qty ingredient) 1) in
    let st' := snd (syncOwned true api pantryItems backendMap ingredient st) in
    requests st' = (requests st ++ [request])%list
    /\ (forall item,
          api (requests st) request = Created item ->
          backendIngredientMap st'
          = Js.Map_set (id ingredient) (PantryItem.id item)
              (backendIngredientMap st)
          /\ warnings st' = warnings st)
    /\ (api (requests st) request = Failed ->
        backendIngredientMap st' = backendIngredientMap st
        /\ warnings st'
           = (warnings st ++ ["Failed to sync ingredient add:"])%list).
Proof.
  intros api pantryItems backendMap ingredient st Ho Hmiss request st'.
  assert (Hrun : st' = snd (syncIngredientToBackend true api ingredient Add st)).
  { unfold st', syncOwned. destruct Hmiss as [-> | ->]; reflexivity. }
  rewrite Hrun, (run_add api ingredient st Ho). fold request.
  destruct (api (requests st) request) eqn:E; simpl;
    (split; [reflexivity|]); split; try discriminate; try (intros _; auto).
  intros it [= <-]. auto.
Qed.

Lemma syncOwned_creates_unmatched_witness :
  let st' :=
    snd (syncOwned true limeServer [limeRow] [("lime", 7%Z)] gin
           (loadedScreen [gin])) in
  requests st' = [POST_pantry "Gin" (1 # 2)]
  /\ backendIngredientMap st' = [("g1", 8%Z)]
  /\ warnings st' = [].
Proof.
  destruct (syncOwned_creates_unmatched limeServer [limeRow] [("lime", 7%Z)]
              gin (loadedScreen [gin]) eq_refl (or_introl eq_refl))
    as (Hreq & Hok & _).
  destruct (Hok (PantryItem.mk 8 "Gin" (Some (1 # 2))) eq_refl) as [Hmap Hw].
  repeat split; assumption.
Defined.

(** [adjustQty] sends the quantity it stores, clamped and rounded, and
    sends it only for an owned entry whose id has a server id recorded:
    then exactly one PUT to that id, otherwise no request. *)
Theorem adjustQty_sends_stored_quantity :
  forall api st k q e,
    find (hasId k) (ingredients st) = Some e ->
    let st' := snd (adjustQty true api k q st) in
    (forall backendId,
        owned e = true ->
        Js.Map_get k (backendIngredientMap st) = Some backendId ->
        backendId <> 0%Z ->
        requests st'
        = (requests st ++ [PUT_pantry backendId (roundedQty q)])%list)
    /\ (owned e = false -> requests st' = requests st)
    /\ (Js.Map_get k (backendIngredientMap st) = None ->
        requests st' = requests st)
    /\ backendIngredientMap st' = backendIngredientMap st.
Proof.
  intros api st k q e Hfind st'.
  assert (Hk : id e = k).
  { apply find_some in Hfind as [_ H]. now apply hasId_true. }
  assert (Hupd : find (hasId k) (adjustQtyLocal k q (ingredients st))
                 = Some (with_qty (roundedQty q) e)).
  { apply (find_map_some (hasId k) (with_qty (roundedQty q))); auto. }
  unfold st', adjustQty, bind, modify, gets. clear st'.
  destruct st; simpl in *. rewrite Hupd. simpl.
  destruct (owned e) eqn:Ho.
  - unfold syncIngredientToBackend. simpl. rewrite Ho. simpl.
    unfold try_catch, bind, gets. simpl. rewrite Hk.
    destruct (Js.Map_get k backendIngredientMap0) as [b|] eqn:Hb.
    + unfold Js.truthy_num. destruct (Z.eqb_spec b 0) as [->|Hnz]; simpl.
      * split; [intros ? _ [= <-] ?; congruence|].
        split; [discriminate|]. split; [discriminate|reflexivity].
      * unfold put, bind, call. simpl.
        destruct (api requests0 (PUT_pantry b (roundedQty q))); simpl;
          (split; [intros ? _ [= <-] _; reflexivity|]);
          (split; [discriminate|]); (split; [discriminate|reflexivity]).
    + simpl. split; [discriminate|]. split; [discriminate|].
      split; reflexivity.
  - simpl. split; [discriminate|]. repeat split.
Qed.

Lemma adjustQty_sends_stored_quantity_witness :
  requests
    (snd (adjustQty true limeServer "db_7" (2 # 3)
            (setBackendIngredientMap (fun _ => [("db_7", 7%Z)])
               (loadedScreen [limeHalf "db_7"]))))
  = [PUT_pantry 7 (roundedQty (2 # 3))].
Proof.
  apply (proj1 (adjustQty_sends_stored_quantity limeServer
                  (setBackendIngredientMap (fun _ => [("db_7", 7%Z)])
                     (loadedScreen [limeHalf "db_7"]))
                  "db_7" (2 # 3) (limeHalf "db_7") eq_refl) 7%Z);
    [reflexivity|reflexivity|discriminate].
Defined.

(** An entry added from the catalog goes to the end of the list under the
    timestamp id, with the normalized name and the stepper clamped to
    [0, 1]; it is owned on the cabinet tab and wanted on the shopping tab.
    From the shopping tab nothing is sent; from the cabinet tab, signed in,
    one POST is sent and the id of the answer is recorded. *)
Theorem addFromCatalog_by_tab :
  forall isAuthenticated api normalizeIngredient ingredientImageUrl
         itemName now random stepper st,
    let st' :=
      snd (addFromCatalog isAuthenticated api normalizeIngredient
             ingredientImageUrl itemName now random stepper st) in
    exists e q,
      ingredients st' = (ingredients st ++ [e])%list
      /\ id e = Js.to_string now
      /\ name e = displayName (normalizeIngredient itemName)
      /\ owned e = onCabinetTab st
      /\ wanted e = Some (negb (onCabinetTab st))
      /\ qty e = Some q /\ q == clamp01 stepper /\ 0 <= q <= 1
      /\ (activeTab st = shopping -> requests st' = requests st)
      /\ (activeTab st = cabinet -> isAuthenticated = true ->
          requests st' = (requests st ++ [POST_pantry (name e) q])%list
          /\ forall item,
               api (requests st) (POST_pantry (name e) q) = Created item ->
               backendIngredientMap st'
               = Js.Map_set (id e) (PantryItem.id item)
                   (backendIngredientMap st)).
Proof.
  intros isAuth api norm img itemName now random stepper st st'.
  destruct (ingredients_addFromCatalog isAuth api norm img itemName now
              random stepper st) as (e0 & He0 & _).
  exists (mkIngredient (Js.to_string now) (displayName (norm itemName)) "Other"
            (onCabinetTab st) (Some (negb (onCabinetTab st))) (Some random)
            (Some (img (or_else (canonicalName (norm itemName))
                          (displayName (norm itemName))) "Small"))
            (Some (Js.Math_max 0 (Js.Math_min 1 stepper)))),
         (Js.Math_max 0 (Js.Math_min 1 stepper)).
  pose proof (clamp01_range stepper) as Hrange.
  rewrite <- (Math_clamp_is_clamp01 stepper) in Hrange.
  unfold st', addFromCatalog, bind, modify, gets. clear st' e0 He0.
  unfold onCabinetTab.
  destruct st; simpl in *.
  split; [|split; [reflexivity|]; split; [reflexivity|];
           split; [reflexivity|]; split; [reflexivity|];
           split; [reflexivity|]; split; [apply Math_clamp_is_clamp01|];
           split; [exact Hrange|]].
  - destruct activeTab0; simpl; [|reflexivity].
    destruct isAuth; [|reflexivity].
    unfold try_catch. rewrite run_add by reflexivity. simpl.
    match goal with |- context [api ?h ?r] => destruct (api h r) end;
      reflexivity.
  - split.
    + intros ->. reflexivity.
    + intros -> ->. simpl.
      unfold try_catch. rewrite run_add by reflexivity. simpl.
      match goal with |- context [api ?h ?r] => destruct (api h r) eqn:E end;
        simpl; (split; [reflexivity|]); intros it; try discriminate.
      now intros [= <-].
Qed.

Lemma addFromCatalog_by_tab_witness :
  let st' :=
    snd (addFromCatalog true limeServer sameName imageOf "Gin" 1700000000001
           (1 # 3) (5 # 4) (loadedScreen [mint])) in
  map name (ingredients st') = ["Mint"; "Gin"]
  /\ requests st' = [POST_pantry "Gin" 1]
  /\ backendIngredientMap st' = [("1700000000001", 8%Z)].
Proof.
  destruct (addFromCatalog_by_tab true limeServer sameName imageOf "Gin"
              1700000000001 (1 # 3) (5 # 4) (loadedScreen [mint]))
    as (e & q & Hl & Hid & Hname & _ & _ & Hq & _ & _ & _ & Hsend).
  destruct (Hsend eq_refl eq_refl) as [Hreq Hmap].
  split; [|split].
  - rewrite Hl, map_app. simpl. now rewrite Hname.
  - reflexivity.
  - reflexivity.
Defined.

(** ** The map from local ids to server ids *)

Section MapFacts.

Context {V : Type}.
Implicit Types (m : Js.Map V) (k : string) (v : V).

Lemma Map_get_set_same m k v : Js.Map_get k (Js.Map_set k v m) = Some v.
Proof.
  induction m as [|[k' v'] m IH]; simpl.
  - now rewrite String.eqb_refl.
  - destruct (k' =? k)%string eqn:E; simpl.
    + now rewrite String.eqb_refl.
    + now rewrite E.
Qed.

Lemma Map_get_set_other m k k' v :
  k' <> k -> Js.Map_get k' (Js.Map_set k v m) = Js.Map_get k' m.
Proof.
  intros Hne. induction m as [|[k0 v0] m IH]; simpl.
  - apply String.eqb_neq in Hne. rewrite String.eqb_sym. now rewrite Hne.
  - destruct (k0 =? k)%string eqn:E; simpl.
    + apply String.eqb_eq in E. subst k0.
      apply not_eq_sym in Hne. apply String.eqb_neq in Hne. now rewrite Hne.
    + now rewrite IH.
Qed.

Lemma Map_get_none m k : Js.Map_get k m = None <-> ~ In k (map fst m).
Proof.
  induction m as [|[k' v'] m IH]; simpl; [tauto|].
  destruct (String.eqb_spec k' k) as [->|Hne].
  - split; [discriminate|]. tauto.
  - rewrite IH. tauto.
Qed.

Lemma Map_get_in m k v : Js.Map_get k m = Some v -> In (k, v) m.
Proof.
  induction m as [|[k' v'] m IH]; simpl; [discriminate|].
  destruct (String.eqb_spec k' k) as [->|Hne].
  - intros [= ->]. now left.
  - intros H. right. auto.
Qed.

Lemma Map_set_keys m k v :
  map fst (Js.Map_set k v m)
  = if existsb (String.eqb k) (map fst m) then map fst m
    else (map fst m ++ [k])%list.
Proof.
  induction m as [|[k' v'] m IH]; simpl; [reflexivity|].
  rewrite (String.eqb_sym k k').
  destruct (k' =? k)%string eqn:E; simpl.
  - apply String.eqb_eq in E. now subst.
  - rewrite IH. now destruct (existsb (String.eqb k) (map fst m)).
Qed.

Lemma Map_set_NoDup m k v :
  NoDup (map fst m) -> NoDup (map fst (Js.Map_set k v m)).
Proof.
  intros Hnd. rewrite Map_set_keys.
  destruct (existsb (String.eqb k) (map fst m)) eqn:E; [exact Hnd|].
  apply (NoDup_Add (Add_app k (map fst m) [])). rewrite app_nil_r.
  split; [exact Hnd|]. intros Hin.
  rewrite existsb_false_forall in E. specialize (E k Hin).
  now rewrite String.eqb_refl in E.
Qed.

Lemma Map_set_other m k k' v v' :
  k' <> k -> In (k', v') m -> In (k', v') (Js.Map_set k v m).
Proof.
  intros Hne. induction m as [|[k0 v0] m IH]; simpl; [tauto|].
  destruct (String.eqb_spec k0 k) as [->|Hk0].
  - intros [[= -> ->]|H]; [congruence|now right].
  - intros [H|H]; [now left|right; auto].
Qed.

Lemma Map_set_same m k v : Js.Map_get k m = Some v -> Js.Map_set k v m = m.
Proof.
  induction m as [|[k' v'] m IH]; simpl; [discriminate|].
  destruct (String.eqb_spec k' k) as [->|Hne].
  - now intros [= ->].
  - intros H. now rewrite IH.
Qed.

Lemma Map_delete_In m k kb : In kb (Js.Map_delete k m) -> In kb m.
Proof.
  induction m as [|[k' v'] m IH]; simpl; [tauto|].
  destruct (k' =? k)%string; simpl; [tauto|]. intros [H|H]; auto.
Qed.

Lemma Map_delete_keys m k k' :
  In k' (map fst (Js.Map_delete k m)) -> In k' (map fst m).
Proof.
  intros H. apply in_map_iff in H as (kb & <- & Hin).
  apply in_map. eapply Map_delete_In, Hin.
Qed.

Lemma Map_delete_NoDup m k :
  NoDup (map fst m) -> NoDup (map fst (Js.Map_delete k m)).
Proof.
  induction m as [|[k' v'] m IH]; simpl; [auto|].
  intros Hnd. inversion Hnd as [|? ? Hnotin Hnd']; subst.
  destruct (k' =? k)%string; simpl; [exact Hnd'|].
  constructor; [|auto]. intros H. apply Hnotin. eapply Map_delete_keys, H.
Qed.

Lemma Map_delete_gone m k :
  NoDup (map fst m) -> ~ In k (map fst (Js.Map_delete k m)).
Proof.
  induction m as [|[k' v'] m IH]; simpl; [tauto|].
  intros Hnd. inversion Hnd as [|? ? Hnotin Hnd']; subst.
  destruct (String.eqb_spec k' k) as [->|Hne]; simpl; [exact Hnotin|].
  intros [H|H]; [congruence|]. now apply (IH Hnd').
Qed.

End MapFacts.

(** ** Relations the sync steps respect *)

Section Respects.

Variable P : Screen -> Screen -> Prop.
Hypothesis P_refl : forall st, P st st.
Hypothesis P_trans : forall a b c, P a b -> P b c -> P a c.

Lemma respects_ret {A : Type} (a : A) : respects P (ret a).
Proof. intros st. apply P_refl. Qed.

Lemma respects_throw {A : Type} (e : Exn) : respects P (@throw A e).
Proof. intros st. apply P_refl. Qed.

Lemma respects_gets {A : Type} (f : Screen -> A) : respects P (gets f).
Proof. intros st. apply P_refl. Qed.

Lemma respects_bind {A B : Type} (m : M A) (k : A -> M B) :
  respects P m -> (forall a, respects P (k a)) -> respects P (bind m k).
Proof.
  intros Hm Hk st. unfold bind. specialize (Hm st).
  destruct (m st) as [[a|e] st']; simpl in *; [|assumption].
  eapply P_trans; [exact Hm|apply Hk].
Qed.

Lemma respects_try_catch {A : Type} (m : M A) (h : Exn -> M A) :
  respects P m -> (forall e, respects P (h e)) -> respects P (try_catch m h).
Proof.
  intros Hm Hh st. unfold try_catch. specialize (Hm st).
  destruct (m st) as [[a|e] st']; simpl in *; [assumption|].
  eapply P_trans; [exact Hm|apply Hh].
Qed.

Lemma respects_forEach {A : Type} (xs : list A) (body : A -> M unit) :
  (forall x, In x xs -> respects P (body x)) -> respects P (forEach xs body).
Proof.
  induction xs as [|x xs IH]; simpl; intros Hbody.
  - apply respects_ret.
  - apply respects_bind; auto.
Qed.

Hypothesis P_request : forall r st, P st (pushRequest r st).
Hypothesis P_warning : forall w st, P st (pushWarning w st).

Lemma respects_call api r : respects P (call api r).
Proof.
  intros st. unfold call. destruct (api (requests st) r); apply P_request.
Qed.

Lemma respects_warn w : respects P (warn w).
Proof. intros st. apply P_warning. Qed.

(** One sync of an ingredient respects [P] as soon as recording or
    dropping the server id of that ingredient does. *)
Lemma respects_syncIngredientToBackend isAuthenticated api ingredient action :
  (forall v st,
      P st (setBackendIngredientMap (Js.Map_set (id ingredient) v) st)) ->
  (forall st,
      P st (setBackendIngredientMap (Js.Map_delete (id ingredient)) st)) ->
  respects P (syncIngredientToBackend isAuthenticated api ingredient action).
Proof.
  intros Hset Hdel. unfold syncIngredientToBackend, post, put, del.
  destruct (negb isAuthenticated || negb (owned ingredient));
    [apply respects_ret|].
  apply respects_try_catch; [|intros; apply respects_warn].
  destruct action;
    repeat first
      [ apply respects_ret | apply respects_throw | apply respects_gets
      | apply respects_call
      | apply respects_bind; [|intro]
      | intros st0; apply Hset | intros st0; apply Hdel
      | match goal with
        | |- respects P (match ?x with _ => _ end) => destruct x
        end ].
Qed.

Lemma respects_syncOwned isAuthenticated api pantryItems backendMap ingredient :
  (forall v st,
      P st (setBackendIngredientMap (Js.Map_set (id ingredient) v) st)) ->
  (forall st,
      P st (setBackendIngredientMap (Js.Map_delete (id ingredient)) st)) ->
  respects P
    (syncOwned isAuthenticated api pantryItems backendMap ingredient).
Proof.
  intros Hset Hdel. unfold syncOwned.
  repeat first
    [ apply respects_ret
    | apply respects_syncIngredientToBackend; assumption
    | apply respects_bind; [|intro]
    | intros st0; apply Hset
    | match goal with
      | |- respects P (match ?x with _ => _ end) => destruct x
      end ].
Qed.

End Respects.

Lemma Map_delete_other {V : Type} (m : Js.Map V) k k' v' :
  k' <> k -> In (k', v') m -> In (k', v') (Js.Map_delete k m).
Proof.
  intros Hne. induction m as [|[k0 v0] m IH]; simpl; [tauto|].
  destruct (String.eqb_spec k0 k) as [->|Hk0].
  - intros [[= -> ->]|H]; [congruence|exact H].
  - intros [H|H]; [now left|right; auto].
Qed.

Lemma extendsRequests_refl st : extendsRequests st st.
Proof. exists []. now rewrite app_nil_r. Qed.

Lemma extendsRequests_same a b :
  requests b = requests a -> extendsRequests a b.
Proof. intros H. exists []. now rewrite app_nil_r. Qed.

Lemma extendsRequests_trans a b c :
  extendsRequests a b -> extendsRequests b c -> extendsRequests a c.
Proof.
  intros [x Hx] [y Hy]. exists (x ++ y)%list. now rewrite Hy, Hx, app_assoc.
Qed.

Lemma extendsRequests_In a b r :
  extendsRequests a b -> In r (requests a) -> In r (requests b).
Proof. intros [x ->] H. apply in_or_app. now left. Qed.

Lemma keepsMappingsOff_trans K a b c :
  keepsMappingsOff K a b -> keepsMappingsOff K b c -> keepsMappingsOff K a c.
Proof. intros Hab Hbc k v HK Hin. apply Hbc, Hab; assumption. Qed.

Lemma returns_bind (m : M unit) (k : unit -> M unit) :
  returns m -> returns (k tt) -> returns (bind m k).
Proof.
  intros Hm Hk st. unfold bind. specialize (Hm st).
  destruct (m st) as [[[]|e] st']; simpl in *; [apply Hk|discriminate].
Qed.

Lemma returns_forEach {A : Type} (xs : list A) (body : A -> M unit) :
  (forall x, returns (body x)) -> returns (forEach xs body).
Proof.
  intros Hbody. induction xs as [|x xs IH]; simpl.
  - intros st. reflexivity.
  - apply returns_bind; auto.
Qed.

Lemma returns_syncOwned isAuthenticated api pantryItems backendMap ingredient :
  returns (syncOwned isAuthenticated api pantryItems backendMap ingredient).
Proof.
  unfold syncOwned.
  destruct (Js.Map_get _ backendMap) as [b|];
    [|apply returns_syncIngredientToBackend].
  destruct (Js.truthy_num b); [|apply returns_syncIngredientToBackend].
  apply returns_bind; [|intros st; reflexivity].
  destruct (find _ pantryItems) as [item|]; [|intros st; reflexivity].
  destruct (quantityDiffers item ingredient);
    [apply returns_syncIngredientToBackend|intros st; reflexivity].
Qed.

(** The first loop of the pass: it runs to its end, keeps the list and the
    requests issued so far, keeps the server ids one per local id and does
    not touch the ids recorded for other entries than the ones it visits. *)
Lemma syncOwned_loop isAuthenticated api pantryItems backendMap xs st :
  let r :=
    forEach xs (syncOwned isAuthenticated api pantryItems backendMap) st in
  fst r = Ret tt
  /\ ingredients (snd r) = ingredients st
  /\ extendsRequests st (snd r)
  /\ keepsKeysDistinct st (snd r)
  /\ keepsMappingsOff (fun k => exists e, In e xs /\ id e = k) st (snd r).
Proof.
  split; [apply returns_forEach; intro; apply returns_syncOwned|].
  split; [apply keeps_forEach; intro; apply keeps_syncOwned|].
  split; [|split].
  - apply (respects_forEach extendsRequests extendsRequests_refl
             extendsRequests_trans).
    intros x _.
    apply (respects_syncOwned extendsRequests extendsRequests_refl
             extendsRequests_trans);
      try (intros; apply extendsRequests_same; reflexivity).
    intros r s. exists [r]. reflexivity.
  - apply (respects_forEach keepsKeysDistinct).
    + intros s H. exact H.
    + intros a b c Hab Hbc H. auto.
    + intros x _. apply (respects_syncOwned keepsKeysDistinct).
      * intros s H. exact H.
      * intros a b c Hab Hbc H. auto.
      * intros r s H. exact H.
      * intros w s H. exact H.
      * intros v s H. simpl. now apply Map_set_NoDup.
      * intros s H. simpl. now apply Map_delete_NoDup.
  - set (K := fun k => exists e, In e xs /\ id e = k).
    apply (respects_forEach (keepsMappingsOff K)).
    + intros s k b _ H. exact H.
    + apply keepsMappingsOff_trans.
    + intros x Hx. apply (respects_syncOwned (keepsMappingsOff K)).
      * intros s k b _ H. exact H.
      * apply keepsMappingsOff_trans.
      * intros r s k b _ H. exact H.
      * intros w s k b _ H. exact H.
      * intros v s k b HK H. simpl. apply Map_set_other; [|exact H].
        intros ->. apply HK. now exists x.
      * intros s k b HK H. simpl. apply Map_delete_other; [|exact H].
        intros ->. apply HK. now exists x.
Qed.

Lemma run_dropStale api current k b st :
  api (requests st) (DELETE_pantry b) <> Failed ->
  dropStale api current (k, b) st
  = (Ret tt,
     if isStale current k
     then setBackendIngredientMap (Js.Map_delete k)
            (pushRequest (DELETE_pantry b) st)
     else st).
Proof.
  intros Hok. unfold dropStale, isStale.
  destruct (find (hasId k) current) as [i|]; [destruct (owned i)|]; simpl;
    try reflexivity;
    unfold del, bind; rewrite (run_call_ok _ _ _ Hok); reflexivity.
Qed.

Lemma dropStale_loop api current xs st :
  (forall h b, api h (DELETE_pantry b) <> Failed) ->
  let r := forEach xs (dropStale api current) st in
  fst r = Ret tt
  /\ backendIngredientMap (snd r)
     = fold_left (dropStep current) xs (backendIngredientMap st)
  /\ extendsRequests st (snd r)
  /\ (forall k b, In (k, b) xs -> isStale current k = true ->
                  In (DELETE_pantry b) (requests (snd r))).
Proof.
  intros Hok. revert st.
  induction xs as [|[k b] xs IH]; intros st; cbn [forEach fold_left].
  - split; [reflexivity|]. split; [reflexivity|].
    split; [apply extendsRequests_refl|]. intros ? ? [].
  - unfold bind. rewrite (run_dropStale _ _ _ _ _ (Hok _ _)).
    unfold dropStep at 2. cbn [fst snd].
    destruct (isStale current k) eqn:Hs.
    + destruct (IH (setBackendIngredientMap (Js.Map_delete k)
                      (pushRequest (DELETE_pantry b) st)))
        as (Hret & Hmap & Hext & Hdel).
      split; [exact Hret|]. split; [exact Hmap|].
      assert (Hext' : extendsRequests st
                        (setBackendIngredientMap (Js.Map_delete k)
                           (pushRequest (DELETE_pantry b) st)))
        by (exists [DELETE_pantry b]; reflexivity).
      split; [eapply extendsRequests_trans; eassumption|].
      intros k' b' [[= <- <-]|Hin] Hk'.
      * eapply extendsRequests_In; [exact Hext|]. simpl.
        apply in_or_app. right. now left.
      * now apply (Hdel k' b').
    + destruct (IH st) as (Hret & Hmap & Hext & Hdel).
      split; [exact Hret|]. split; [exact Hmap|]. split; [exact Hext|].
      intros k' b' [[= <- <-]|Hin] Hk'; [congruence|now apply (Hdel k' b')].
Qed.

Lemma dropStep_fold current xs (m : Js.Map Z) :
  NoDup (map fst m) ->
  let m' := fold_left (dropStep current) xs m in
  (forall kb, In kb m' -> In kb m)
  /\ NoDup (map fst m')
  /\ (forall k, isStale current k = true -> In k (map fst xs) ->
                ~ In k (map fst m')).
Proof.
  revert m. induction xs as [|[k0 b0] xs IH]; intros m Hnd; simpl.
  - split; [auto|]. split; [exact Hnd|]. intros k _ [].
  - unfold dropStep at 2 4 6. simpl.
    destruct (isStale current k0) eqn:Hs.
    + destruct (IH (Js.Map_delete k0 m) (Map_delete_NoDup m k0 Hnd))
        as (Hsub & Hnd' & Hgone).
      split; [intros kb H; eapply Map_delete_In, Hsub, H|].
      split; [exact Hnd'|].
      intros k Hk [<-|Hin]; [|now apply Hgone].
      intros H. apply in_map_iff in H as (kb & Hfst & Hkb).
      apply Hsub in Hkb. apply (Map_delete_gone m k0 Hnd).
      apply in_map_iff. exists kb. split; assumption.
    + destruct (IH m Hnd) as (Hsub & Hnd' & Hgone).
      split; [exact Hsub|]. split; [exact Hnd'|].
      intros k Hk [<-|Hin]; [congruence|now apply Hgone].
Qed.

(** The pass, once the fetch has answered, against a server that accepts
    every delete: the two loops run one after the other, to the end. *)
Lemma run_syncToBackend_fetched api normalizeIngredient st items :
  loading st = false ->
  api (requests st) GET_pantry = Rows items ->
  (forall h b, api h (DELETE_pantry b) <> Failed) ->
  let s1 :=
    snd (forEach (filter owned (ingredients st))
           (syncOwned true api items (buildBackendMap normalizeIngredient items))
           (pushRequest GET_pantry st)) in
  syncToBackend true api normalizeIngredient st
  = (Ret tt,
     snd (forEach (backendIngredientMap s1)
            (dropStale api (ingredients st)) s1)).
Proof.
  intros Hload Hapi Hok s1.
  unfold syncToBackend. rewrite Hload. cbn [orb negb].
  unfold try_catch, bind at 1, get, bind at 1.
  rewrite run_call_ok by (rewrite Hapi; discriminate). rewrite Hapi.
  unfold ret at 1. unfold bind at 1, gets at 1. cbn [ingredients pushRequest].
  unfold bind at 1.
  destruct (syncOwned_loop true api items
              (buildBackendMap normalizeIngredient items)
              (filter owned (ingredients st)) (pushRequest GET_pantry st))
    as (Hret & _).
  unfold s1. clear s1.
  destruct (forEach (filter owned (ingredients st)) _
              (pushRequest GET_pantry st)) as [o1 s1].
  simpl in Hret. subst o1. cbn [snd]. unfold bind, gets.
  destruct (dropStale_loop api (ingredients st) (backendIngredientMap s1) s1
              Hok) as (Hret2 & _).
  destruct (forEach (backendIngredientMap s1) _ s1) as [o2 s2].
  simpl in Hret2. now subst o2.
Qed.

Lemma isStale_not_owned current k :
  (forall e, In e current -> id e = k -> owned e = false) ->
  isStale current k = true.
Proof.
  intros Hnone. unfold isStale.
  destruct (find (hasId k) current) as [e|] eqn:E; [|reflexivity].
  apply find_some in E as [He Hk]. apply hasId_true in Hk.
  now rewrite (Hnone e He Hk).
Qed.

(** What the two loops leave, with [s1] the state between them. *)
Lemma syncToBackend_loops api normalizeIngredient st items :
  loading st = false ->
  api (requests st) GET_pantry = Rows items ->
  (forall h b, api h (DELETE_pantry b) <> Failed) ->
  NoDup (map fst (backendIngredientMap st)) ->
  let st' := snd (syncToBackend true api normalizeIngredient st) in
  exists s1,
    keepsMappingsOff
      (fun k => exists e, In e (filter owned (ingredients st)) /\ id e = k)
      (pushRequest GET_pantry st) s1
    /\ (forall kb, In kb (backendIngredientMap st') ->
                   In kb (backendIngredientMap s1))
    /\ (forall k, isStale (ingredients st) k = true ->
                  In k (map fst (backendIngredientMap s1)) ->
                  ~ In k (map fst (backendIngredientMap st')))
    /\ (forall k b, In (k, b) (backendIngredientMap s1) ->
                    isStale (ingredients st) k = true ->
                    In (DELETE_pantry b) (requests st')).
Proof.
  intros Hload Hapi Hok Hnd st'.
  unfold st'.
  rewrite (run_syncToBackend_fetched api normalizeIngredient st items
             Hload Hapi Hok).
  cbn [snd]. clear st'.
  destruct (syncOwned_loop true api items
              (buildBackendMap normalizeIngredient items)
              (filter owned (ingredients st)) (pushRequest GET_pantry st))
    as (_ & _ & _ & Hkeys & Hoff).
  set (s1 := snd (forEach (filter owned (ingredients st)) _
                    (pushRequest GET_pantry st))) in *.
  specialize (Hkeys Hnd).
  destruct (dropStale_loop api (ingredients st) (backendIngredientMap s1) s1
              Hok) as (_ & Hmap & _ & Hdel).
  destruct (dropStep_fold (ingredients st) (backendIngredientMap s1)
              (backendIngredientMap s1) Hkeys) as (Hsub & _ & Hgone).
  rewrite <- Hmap in Hsub, Hgone.
  exists s1. repeat split; assumption.
Qed.

(** A recorded server id whose local id no owned entry carries is deleted
    remotely by the pass, and dropped. *)
Lemma stale_mapping_deleted api normalizeIngredient st items k b :
  loading st = false ->
  api (requests st) GET_pantry = Rows items ->
  (forall h b, api h (DELETE_pantry b) <> Failed) ->
  NoDup (map fst (backendIngredientMap st)) ->
  In (k, b) (backendIngredientMap st) ->
  (forall e, In e (ingredients st) -> id e = k -> owned e = false) ->
  let st' := snd (syncToBackend true api normalizeIngredient st) in
  In (DELETE_pantry b) (requests st')
  /\ Js.Map_get k (backendIngredientMap st') = None.
Proof.
  intros Hload Hapi Hok Hnd Hin Hnone st'.
  destruct (syncToBackend_loops api normalizeIngredient st items Hload Hapi
              Hok Hnd) as (s1 & Hoff & _ & Hgone & Hdel).
  fold st' in Hgone, Hdel.
  pose proof (isStale_not_owned (ingredients st) k Hnone) as Hs.
  assert (Hin1 : In (k, b) (backendIngredientMap s1)).
  { apply Hoff; [|exact Hin]. intros (e & He & Hk).
    apply filter_In in He as [He Ho].
    rewrite (Hnone e He Hk) in Ho. discriminate. }
  split.
  - now apply (Hdel k b).
  - apply Map_get_none. apply (Hgone k Hs). apply (in_map fst _ _ Hin1).
Qed.

(** After a pass in which the fetch answers and the server accepts the
    deletes, every server id still recorded belongs to an entry of the list
    that is owned; and a recorded id whose local id no owned entry carries
    has been deleted remotely and dropped. *)
Theorem syncToBackend_drops_stale_mappings :
  forall api normalizeIngredient st items,
    loading st = false ->
    api (requests st) GET_pantry = Rows items ->
    (forall h b, api h (DELETE_pantry b) <> Failed) ->
    NoDup (map fst (backendIngredientMap st)) ->
    let st' := snd (syncToBackend true api normalizeIngredient st) in
    (forall k b,
        In (k, b) (backendIngredientMap st') ->
        exists e, find (hasId k) (ingredients st) = Some e /\ owned e = true)
    /\ (forall k b,
          In (k, b) (backendIngredientMap st) ->
          (forall e, In e (ingredients st) -> id e = k -> owned e = false) ->
          In (DELETE_pantry b) (requests st')
          /\ Js.Map_get k (backendIngredientMap st') = None).
Proof.
  intros api norm st items Hload Hapi Hok Hnd st'. split.
  - destruct (syncToBackend_loops api norm st items Hload Hapi Hok Hnd)
      as (s1 & _ & Hsub & Hgone & _).
    fold st' in Hsub, Hgone.
    intros k b Hin.
    assert (Hfresh : isStale (ingredients st) k = false).
    { destruct (isStale (ingredients st) k) eqn:Hs; [|reflexivity].
      exfalso. apply (Hgone k Hs).
      + apply (in_map fst _ _ (Hsub _ Hin)).
      + apply (in_map fst _ _ Hin). }
    unfold isStale in Hfresh.
    destruct (find (hasId k) (ingredients st)) as [e|]; [|discriminate].
    exists e. split; [reflexivity|]. now destruct (owned e).
  - intros k b Hin Hnone.
    now apply (stale_mapping_deleted api norm st items k b).
Qed.

Lemma syncToBackend_drops_stale_mappings_witness :
  let st :=
    setBackendIngredientMap (fun _ => [("db_7", 7%Z); ("old", 5%Z)])
      (loadedScreen [limeHalf "db_7"]) in
  let st' := snd (syncToBackend true limeServer sameName st) in
  In (DELETE_pantry 5) (requests st')
  /\ Js.Map_get "old" (backendIngredientMap st') = None.
Proof.
  apply (proj2 (syncToBackend_drops_stale_mappings limeServer sameName
                  (setBackendIngredientMap
                     (fun _ => [("db_7", 7%Z); ("old", 5%Z)])
                     (loadedScreen [limeHalf "db_7"]))
                  [limeRow] eq_refl eq_refl
                  (fun h b => ltac:(discriminate))
                  ltac:(repeat constructor; simpl; intuition discriminate))
           "old" 5%Z).
  - simpl. now right; left.
  - intros e [<-|[]]. discriminate.
Defined.

(** ** The state after a load from the database *)

Lemma to_string_inj a b : Js.to_string a = Js.to_string b -> a = b.
Proof.
  unfold Js.to_string. intros H.
  assert (Hint : forall n,
             NilZero.int_of_string (NilZero.string_of_int (Z.to_int n))
             = Some (Z.to_int n)).
  { intros n. apply NilZero.isi; destruct n; simpl; try discriminate;
      intros [= Hnil]; now apply DecimalPos.Unsigned.to_uint_nonnil in Hnil. }
  apply (f_equal NilZero.int_of_string) in H. rewrite !Hint in H.
  injection H as H. apply (f_equal Z.of_int) in H.
  now rewrite !DecimalZ.of_to in H.
Qed.

Lemma localId_inj a b : localId a = localId b -> PantryItem.id a = PantryItem.id b.
Proof. unfold localId. simpl. intros [= H]. now apply to_string_inj. Qed.

Section FoldSet.

Context {A : Type}.
Variable key : A -> string.
Variable val : A -> Z.

Lemma fold_set_keeps xs (m : Js.Map Z) k v :
  (forall x, In x xs -> key x = k -> val x = v) ->
  Js.Map_get k m = Some v ->
  Js.Map_get k (fold_left (fun m x => Js.Map_set (key x) (val x) m) xs m) = Some v.
Proof.
  revert m. induction xs as [|x xs IH]; intros m Hval Hget; simpl; [exact Hget|].
  apply IH; [intros y Hy; apply Hval; now right|].
  destruct (String.eqb_spec (key x) k) as [Hk|Hk].
  - rewrite Hk, (Hval x (or_introl eq_refl) Hk). apply Map_get_set_same.
  - rewrite Map_get_set_other by congruence. exact Hget.
Qed.

Lemma fold_set_get xs (m : Js.Map Z) x :
  In x xs ->
  (forall y z, In y xs -> In z xs -> key y = key z -> val y = val z) ->
  Js.Map_get (key x) (fold_left (fun m x => Js.Map_set (key x) (val x) m) xs m) = Some (val x).
Proof.
  revert m. induction xs as [|y xs IH]; intros m Hin Hcons; [destruct Hin|].
  simpl. destruct Hin as [->|Hin].
  - apply fold_set_keeps.
    + intros z Hz Hk. apply Hcons; [now right|now left|exact Hk].
    + apply Map_get_set_same.
  - apply IH; [exact Hin|]. intros a b Ha Hb. apply Hcons; now right.
Qed.

Lemma fold_set_keys xs (m : Js.Map Z) k :
  In k (map fst (fold_left (fun m x => Js.Map_set (key x) (val x) m) xs m)) ->
  In k (map fst m) \/ exists x, In x xs /\ key x = k.
Proof.
  revert m. induction xs as [|x xs IH]; intros m; simpl; [auto|].
  intros H. apply IH in H as [H|(y & Hy & Hk)]; [|right; eauto].
  rewrite Map_set_keys in H.
  destruct (existsb (String.eqb (key x)) (map fst m)); [now left|].
  apply in_app_iff in H as [H|[<-|[]]]; [now left|right; eauto].
Qed.

End FoldSet.

Lemma loadFromCache_keeps_refs JSON_parse st :
  backendIngredientMap (snd (loadFromCache JSON_parse st))
  = backendIngredientMap st
  /\ loading (snd (loadFromCache JSON_parse st)) = loading st.
Proof.
  unfold loadFromCache, bind, gets. simpl.
  destruct (asyncStorage st) as [text|]; [|split; reflexivity].
  destruct (Js.truthy_string text); [|split; reflexivity].
  destruct (JSON_parse text); split; reflexivity.
Qed.

Lemma loadCabinet_loaded
    api normalizeIngredient ingredientImageUrl JSON_stringify JSON_parse
    st items :
  api (requests st) GET_pantry = Rows items ->
  items <> [] ->
  let st' :=
    snd (loadCabinet true api normalizeIngredient ingredientImageUrl
           JSON_stringify JSON_parse st) in
  ingredients st' = map (toLocal normalizeIngredient ingredientImageUrl) items
  /\ backendIngredientMap st' = recordLoaded items (backendIngredientMap st)
  /\ loading st' = false
  /\ requests st' = (requests st ++ [GET_pantry])%list.
Proof.
  intros Hapi Hne.
  destruct items as [|item items]; [congruence|].
  destruct st; simpl in *.
  unfold loadCabinet, loadFromDatabase.
  cbv [finally try_catch bind modify get call gets ret warn
       mergedIngredients throw].
  simpl. rewrite Hapi. simpl.
  match goal with
  | |- context [loadFromCache JSON_parse ?s] =>
      destruct (loadFromCache_keeps JSON_parse s) as (Hi & _ & _ & Hr);
      destruct (loadFromCache_keeps_refs JSON_parse s) as (Hm & _);
      destruct (loadFromCache JSON_parse s) as [[[]|e] stB]
  end; simpl in *; rewrite Hi, Hm, Hr; repeat split.
Qed.



(** ** A fresh load needs no sync *)

Lemma quantityDiffers_loaded normalizeIngredient ingredientImageUrl item :
  quantityDiffers item (toLocal normalizeIngredient ingredientImageUrl item)
  = false.
Proof.
  unfold quantityDiffers, Js.Math_abs.
  change (qty (toLocal normalizeIngredient ingredientImageUrl item))
    with (PantryItem.quantity item).
  apply negb_false_iff, Qle_bool_iff, Qabs_Qle_condition.
  generalize (Js.nullish (PantryItem.quantity item) 1). intros q. split; lra.
Qed.

Lemma find_by_id items item :
  NoDup (map PantryItem.id items) ->
  In item items ->
  find (fun p => (PantryItem.id p =? PantryItem.id item)%Z) items = Some item.
Proof.
  induction items as [|x items IH]; intros Hnd Hin; [destruct Hin|].
  inversion Hnd as [|? ? Hnotin Hnd']; subst. simpl.
  destruct Hin as [->|Hin]; [now rewrite Z.eqb_refl|].
  destruct (Z.eqb_spec (PantryItem.id x) (PantryItem.id item)) as [E|_].
  - exfalso. apply Hnotin. rewrite E. now apply in_map.
  - auto.
Qed.

Lemma setBackendIngredientMap_same f st :
  f (backendIngredientMap st) = backendIngredientMap st ->
  setBackendIngredientMap f st = st.
Proof.
  destruct st; unfold setBackendIngredientMap; simpl. now intros ->.
Qed.

Section FreshLoad.

Variable api : list Request -> Request -> Reply.
Variable normalizeIngredient : string -> Normalized.
Variable ingredientImageUrl : string -> string -> string.
Variable items : list PantryItem.t.

Hypothesis ids_distinct : NoDup (map PantryItem.id items).
Hypothesis ids_truthy : forall item, In item items -> PantryItem.id item <> 0%Z.
Hypothesis names_distinct :
  NoDup (map (fun item =>
                Js.toLowerCase
                  (displayName
                     (normalizeIngredient (PantryItem.ingredient_name item))))
             items).

Lemma buildBackendMap_get item :
  In item items ->
  Js.Map_get
    (Js.toLowerCase
       (displayName (normalizeIngredient (PantryItem.ingredient_name item))))
    (buildBackendMap normalizeIngredient items)
  = Some (PantryItem.id item).
Proof.
  intros Hin. unfold buildBackendMap.
  apply (fold_set_get
           (fun item =>
              Js.toLowerCase
                (displayName
                   (normalizeIngredient (PantryItem.ingredient_name item))))
           PantryItem.id items [] item Hin).
  intros y z Hy Hz Hk. f_equal.
  clear -names_distinct Hy Hz Hk.
  induction items as [|x xs IH]; [destruct Hy|].
  simpl in names_distinct.
  inversion names_distinct as [|? ? Hnotin Hnd]; subst.
  destruct Hy as [->|Hy], Hz as [->|Hz]; auto.
  - exfalso. apply Hnotin. rewrite Hk.
    now apply (in_map (fun item =>
                         Js.toLowerCase
                           (displayName
                              (normalizeIngredient
                                 (PantryItem.ingredient_name item))))).
  - exfalso. apply Hnotin. rewrite <- Hk.
    now apply (in_map (fun item =>
                         Js.toLowerCase
                           (displayName
                              (normalizeIngredient
                                 (PantryItem.ingredient_name item))))).
Qed.

Lemma syncOwned_loaded item st :
  In item items ->
  syncOwned true api items (buildBackendMap normalizeIngredient items)
    (toLocal normalizeIngredient ingredientImageUrl item) st
  = (Ret tt,
     setBackendIngredientMap
       (Js.Map_set (localId item) (PantryItem.id item)) st).
Proof.
  intros Hin. unfold syncOwned.
  change (name (toLocal normalizeIngredient ingredientImageUrl item))
    with (displayName (normalizeIngredient (PantryItem.ingredient_name item))).
  rewrite (buildBackendMap_get item Hin).
  unfold Js.truthy_num.
  destruct (Z.eqb_spec (PantryItem.id item) 0) as [E|_];
    [now apply ids_truthy in E|].
  simpl. rewrite (find_by_id items item ids_distinct Hin).
  rewrite quantityDiffers_loaded. reflexivity.
Qed.

Lemma syncOwned_loop_loaded xs st :
  (forall item, In item xs -> In item items) ->
  (forall item, In item items ->
                Js.Map_get (localId item) (backendIngredientMap st)
                = Some (PantryItem.id item)) ->
  forEach (map (toLocal normalizeIngredient ingredientImageUrl) xs)
    (syncOwned true api items (buildBackendMap normalizeIngredient items)) st
  = (Ret tt, st).
Proof.
  intros Hsub Hrec. induction xs as [|x xs IH]; [reflexivity|].
  cbn [map forEach]. unfold bind.
  rewrite (syncOwned_loaded x st (Hsub x (or_introl eq_refl))).
  rewrite setBackendIngredientMap_same
    by (apply Map_set_same, Hrec, Hsub; now left).
  apply IH. intros item Hitem. apply Hsub. now right.
Qed.

Lemma dropStale_loop_fresh current xs st :
  (forall kb, In kb xs -> isStale current (fst kb) = false) ->
  forEach xs (dropStale api current) st = (Ret tt, st).
Proof.
  induction xs as [|[k b] xs IH]; intros Hfresh; [reflexivity|].
  cbn [forEach]. unfold bind.
  assert (Hk : dropStale api current (k, b) st = (Ret tt, st)).
  { specialize (Hfresh (k, b) (or_introl eq_refl)). unfold isStale in Hfresh.
    unfold dropStale. simpl in *.
    destruct (find (hasId k) current) as [i|]; [|discriminate].
    now rewrite Hfresh. }
  rewrite Hk. apply IH. intros kb Hkb. apply Hfresh. now right.
Qed.

Lemma loaded_not_stale item :
  In item items ->
  isStale (map (toLocal normalizeIngredient ingredientImageUrl) items)
    (localId item) = false.
Proof.
  intros Hin. unfold isStale.
  destruct (find (hasId (localId item))
              (map (toLocal normalizeIngredient ingredientImageUrl) items))
    as [e|] eqn:E.
  - apply find_some in E as [He _].
    apply in_map_iff in He as (other & <- & _). reflexivity.
  - exfalso.
    pose proof (find_none _ _ E
                  (toLocal normalizeIngredient ingredientImageUrl item)
                  (in_map _ _ _ Hin)) as Hno.
    unfold hasId in Hno. simpl in Hno. now rewrite String.eqb_refl in Hno.
Qed.

End FreshLoad.

(** Right after a load from the database the first pass has nothing to
    send: with rows of distinct non-zero ids and distinct names, and the
    same rows fetched again, it issues the fetch and no create, update or
    delete, and leaves the screen as the load left it. *)
Theorem fresh_load_is_in_sync :
  forall api normalizeIngredient ingredientImageUrl JSON_stringify JSON_parse
         st items,
    backendIngredientMap st = [] ->
    (forall h, api h GET_pantry = Rows items) ->
    items <> [] ->
    NoDup (map PantryItem.id items) ->
    (forall item, In item items -> PantryItem.id item <> 0%Z) ->
    NoDup (map (fun item =>
                  Js.toLowerCase
                    (displayName
                       (normalizeIngredient (PantryItem.ingredient_name item))))
               items) ->
    let loaded :=
      snd (loadCabinet true api normalizeIngredient ingredientImageUrl
             JSON_stringify JSON_parse st) in
    syncToBackend true api normalizeIngredient loaded
    = (Ret tt, pushRequest GET_pantry loaded).
Proof.
  intros api norm img str parse st items Hempty Hget Hne Hids Hnz Hnames
    loaded.
  destruct (loadCabinet_loaded api norm img str parse st items (Hget _) Hne)
    as (Hing & Hmap & Hload & _).
  fold loaded in Hing, Hmap, Hload. rewrite Hempty in Hmap.
  assert (Hrec : forall item, In item items ->
                   Js.Map_get (localId item) (backendIngredientMap loaded)
                   = Some (PantryItem.id item)).
  { intros item Hin. rewrite Hmap. unfold recordLoaded.
    apply (fold_set_get localId PantryItem.id items _ item Hin).
    intros y z _ _. apply localId_inj. }
  unfold syncToBackend. rewrite Hload. cbn [orb negb].
  unfold try_catch, bind at 1, get, bind at 1.
  rewrite run_call_ok by (rewrite Hget; discriminate). rewrite Hget.
  unfold ret at 1. unfold bind at 1, gets at 1.
  cbn [ingredients pushRequest]. rewrite Hing.
  assert (Howned : filter owned (map (toLocal norm img) items)
                   = map (toLocal norm img) items).
  { clear. induction items as [|x xs IH]; simpl; [reflexivity|].
    now rewrite IH. }
  rewrite Howned. unfold bind at 1.
  rewrite (syncOwned_loop_loaded api norm img items Hids Hnz Hnames items
             (pushRequest GET_pantry loaded) (fun _ H => H) Hrec).
  unfold bind, gets. cbn [backendIngredientMap pushRequest].
  rewrite dropStale_loop_fresh; [reflexivity|].
  intros [k b] Hkb. simpl. rewrite Hmap in Hkb.
  apply (in_map fst) in Hkb. simpl in Hkb. unfold recordLoaded in Hkb.
  apply (fold_set_keys localId PantryItem.id) in Hkb
    as [[]|(item & Hitem & <-)].
  now apply loaded_not_stale.
Qed.

Lemma fresh_load_is_in_sync_witness :
  let loaded :=
    snd (loadCabinet true limeServer sameName imageOf (fun _ => "[]")
           parseCached (initialScreen None)) in
  syncToBackend true limeServer sameName loaded
  = (Ret tt, pushRequest GET_pantry loaded).
Proof.
  apply (fresh_load_is_in_sync limeServer sameName imageOf (fun _ => "[]")
           parseCached (initialScreen None) [limeRow]).
  - reflexivity.
  - reflexivity.
  - discriminate.
  - repeat constructor. simpl. tauto.
  - intros item [<-|[]]. discriminate.
  - repeat constructor. simpl. tauto.
Defined.

(** ** From a local removal to the remote delete *)

Lemma removeFromCabinet_frame k st :
  loading (removeFromCabinet k st) = loading st
  /\ requests (removeFromCabinet k st) = requests st
  /\ backendIngredientMap (removeFromCabinet k st) = backendIngredientMap st
  /\ forall e, In e (ingredients (removeFromCabinet k st)) -> id e = k ->
               owned e = false.
Proof.
  unfold removeFromCabinet.
  destruct (find (hasId k) (ingredients st)) as [removed|] eqn:E; simpl.
  - repeat split. intros e He Hk.
    apply in_map_iff in He as (y & <- & _).
    destruct (hasId k y) eqn:Hy; [reflexivity|].
    apply hasId_true in Hk. congruence.
  - repeat split. intros e He Hk.
    pose proof (find_none _ _ E e He) as Hno.
    apply hasId_true in Hk. congruence.
Qed.

Lemma deleteIngredient_frame k st :
  NoDup (map id (ingredients st)) ->
  loading (deleteIngredient k st) = loading st
  /\ requests (deleteIngredient k st) = requests st
  /\ backendIngredientMap (deleteIngredient k st) = backendIngredientMap st
  /\ forall e, In e (ingredients (deleteIngredient k st)) -> id e <> k.
Proof.
  intros Hnd.
  destruct (find (hasId k) (ingredients st)) as [removed|] eqn:E.
  - destruct (find_findIndex _ _ _ E) as (l1 & l2 & Hl & Hfresh & Hk).
    apply hasId_true in Hk. subst k.
    destruct (deleteIngredient_split st l1 removed l2 Hl Hfresh)
      as [Hnext _].
    assert (Hshape : deleteIngredient (id removed) st
                     = setIngredients (fun _ => (l1 ++ l2)%list)
                         (setToast
                            (Some (mkToast ("Deleted " ++ quoted (name removed))
                                     (deleteUndo (List.length l1) removed)))
                            st)).
    { unfold deleteIngredient. rewrite Hl.
      rewrite (findIndex_app_fresh (hasId (id removed)) l1 removed l2)
        by (assumption || apply hasId_refl).
      rewrite nth_error_middle. simpl.
      now rewrite slice_from_after, slice_to_middle. }
    rewrite Hshape. simpl. repeat split.
    intros e He Hid. rewrite Hl, map_app in Hnd. simpl in Hnd.
    apply NoDup_remove_2 in Hnd. apply Hnd. rewrite <- map_app, <- Hid.
    now apply in_map.
  - unfold deleteIngredient. rewrite (findIndex_absent _ _ E).
    repeat split. intros e He Hk.
    pose proof (find_none _ _ E e He) as Hno.
    apply hasId_true in Hk. congruence.
Qed.

(** An entry taken out of the cabinet, or deleted from a list without
    duplicate ids, loses its remote row at the next pass: the server id
    recorded for it gets one DELETE and is dropped. *)
Theorem removed_entry_is_deleted_remotely :
  forall api normalizeIngredient st items k b,
    loading st = false ->
    api (requests st) GET_pantry = Rows items ->
    (forall h b, api h (DELETE_pantry b) <> Failed) ->
    NoDup (map fst (backendIngredientMap st)) ->
    In (k, b) (backendIngredientMap st) ->
    (let st' :=
       snd (syncToBackend true api normalizeIngredient
              (removeFromCabinet k st)) in
     In (DELETE_pantry b) (requests st')
     /\ Js.Map_get k (backendIngredientMap st') = None)
    /\ (NoDup (map id (ingredients st)) ->
        let st' :=
          snd (syncToBackend true api normalizeIngredient
                 (deleteIngredient k st)) in
        In (DELETE_pantry b) (requests st')
        /\ Js.Map_get k (backendIngredientMap st') = None).
Proof.
  intros api norm st items k b Hload Hapi Hok Hnd Hin. split.
  - destruct (removeFromCabinet_frame k st) as (Hl & Hr & Hm & Hnone).
    apply (stale_mapping_deleted api norm (removeFromCabinet k st) items k b);
      rewrite ?Hl, ?Hr, ?Hm; assumption.
  - intros Hids.
    destruct (deleteIngredient_frame k st Hids) as (Hl & Hr & Hm & Hnone).
    apply (stale_mapping_deleted api norm (deleteIngredient k st) items k b);
      rewrite ?Hl, ?Hr, ?Hm; try assumption.
    intros e He Hk. now apply Hnone in He.
Qed.

Lemma removed_entry_is_deleted_remotely_witness :
  let st :=
    setBackendIngredientMap (fun _ => [("db_7", 7%Z)])
      (loadedScreen [limeHalf "db_7"; mint]) in
  let st' := snd (syncToBackend true limeServer sameName
                    (deleteIngredient "db_7" st)) in
  In (DELETE_pantry 7) (requests st')
  /\ Js.Map_get "db_7" (backendIngredientMap st') = None.
Proof.
  apply (proj2 (removed_entry_is_deleted_remotely limeServer sameName
                  (setBackendIngredientMap (fun _ => [("db_7", 7%Z)])
                     (loadedScreen [limeHalf "db_7"; mint]))
                  [limeRow] "db_7" 7%Z eq_refl eq_refl
                  (fun h b => ltac:(discriminate))
                  ltac:(repeat constructor; simpl; intuition discriminate)
                  ltac:(simpl; tauto))).
  repeat constructor; simpl; intuition discriminate.
Defined.

(** ** A matched entry within the tolerance *)



(** * The assistant screen *)

(** A send with nothing to send, or while an answer is awaited, changes
    nothing.  Otherwise it appends exactly two messages, the trimmed text
    as the user's and then one answer, posts one request, empties the input
    and ends out of the loading state, whether the server answers or not:
    a failure is answered by the keyword fallback, with an alert unless the
    status is 401 or 403. *)
Theorem handleSend_appends_exchange :
  forall message sentAt sentDate answeredAt answeredDate server st,
    let toSend :=
      match message with
      | Some m => if Js.truthy_string m then m
                  else Js.trim (Assistant.inputText st)
      | None => Js.trim (Assistant.inputText st)
      end in
    let st' :=
      Assistant.handleSend message sentAt sentDate answeredAt answeredDate
        server st in
    (toSend = "" \/ Assistant.isLoading st = true -> st' = st)
    /\ (toSend <> "" -> Assistant.isLoading st = false ->
        let request :=
          Assistant.mkChatRequest (Js.trim toSend)
            (Assistant.conversationHistory (Assistant.messages st)) in
        exists answer,
          Assistant.messages st'
          = (Assistant.messages st
               ++ [Assistant.mkMessage (Js.to_string sentAt) (Js.trim toSend)
                     true sentDate;
                   Assistant.mkMessage (Js.to_string (answeredAt + 1)) answer
                     false answeredDate])%list
          /\ (forall t, server request = Assistant.Answered t ->
                        answer = t
                        /\ Assistant.alerts st' = Assistant.alerts st)
          /\ (forall status,
                server request = Assistant.Rejected status ->
                answer = Assistant.generateMockResponse (Js.trim toSend)
                /\ Assistant.alerts st'
                   = if Assistant.notAuthError status
                     then (Assistant.alerts st ++ ["Connection Error"])%list
                     else Assistant.alerts st)
          /\ Assistant.posted st' = (Assistant.posted st ++ [request])%list
          /\ Assistant.inputText st' = ""
          /\ Assistant.isLoading st' = false).
Proof.
  intros message sentAt sentDate answeredAt answeredDate server st toSend st'.
  unfold st', Assistant.handleSend. fold toSend. split.
  - intros [-> | ->]; [reflexivity|]. now rewrite orb_true_r.
  - intros Hne Hidle.
    set (request :=
           Assistant.mkChatRequest (Js.trim toSend)
             (Assistant.conversationHistory (Assistant.messages st))).
    apply String.eqb_neq in Hne. rewrite Hne, Hidle. simpl.
    destruct (server request) as [t|status] eqn:E.
    + exists t. simpl. rewrite <- app_assoc. simpl.
      split; [reflexivity|].
      split; [intros ? [= <-]; split; reflexivity|].
      split; [discriminate|]. repeat split.
    + exists (Assistant.generateMockResponse (Js.trim toSend)).
      destruct (Assistant.notAuthError status) eqn:Ha; simpl;
        rewrite <- app_assoc; simpl;
        (split; [reflexivity|]); (split; [discriminate|]);
        (split; [intros ? [= <-]; rewrite Ha; split; reflexivity|]);
        repeat split.
Qed.

Lemma handleSend_appends_exchange_witness :
  let st' :=
    Assistant.handleSend None 1700000002000 1700000002000 1700000003000
      1700000003001 unreachable chat in
  exists answer,
    Assistant.messages st'
    = [welcome; askedMojito;
       Assistant.mkMessage "1700000002000" "Something with this gin" true
         1700000002000;
       Assistant.mkMessage "1700000003001" answer false 1700000003001]
    /\ answer = Assistant.greeting
    /\ Assistant.alerts st' = ["Connection Error"]
    /\ Assistant.isLoading st' = false.
Proof.
  destruct (proj2 (handleSend_appends_exchange None 1700000002000
                     1700000002000 1700000003000 1700000003001 unreachable
                     chat) ltac:(discriminate) eq_refl)
    as (answer & Hm & _ & Hfail & _ & _ & Hidle).
  destruct (Hfail None eq_refl) as [Hanswer Halert].
  exists answer. split; [exact Hm|]. split; [exact Hanswer|].
  split; [exact Halert|exact Hidle].
Defined.

(** The history sent along leaves out the first message when that message
    contains ["Hello!"], the welcome message, and nothing else, provided
    no later message has the id of the first. *)
Theorem conversationHistory_skips_welcome :
  forall first rest,
    (forall m, In m rest -> Assistant.id m <> Assistant.id first) ->
    Assistant.conversationHistory (first :: rest)
    = map (fun msg =>
             Assistant.mkTurn
               (if Assistant.isUser msg then "user" else "assistant")
               (Assistant.text msg))
          (if Js.includes (Assistant.text first) "Hello!"
           then rest else first :: rest).
Proof.
  intros first rest Hids. unfold Assistant.conversationHistory. f_equal.
  assert (Hkeep : forall l,
             (forall m, In m l -> Assistant.id m <> Assistant.id first) ->
             filter (Assistant.inHistory (first :: rest)) l = l).
  { induction l as [|m l IH]; intros Hl; [reflexivity|].
    cbn [filter]. unfold Assistant.inHistory at 1.
    assert (Hm : (Assistant.id m =? Assistant.id first)%string = false)
      by (apply String.eqb_neq, Hl; now left).
    rewrite Hm. cbn [negb orb]. f_equal.
    apply IH. intros x Hx. apply Hl. now right. }
  pose proof (Hkeep rest Hids) as Hrest.
  cbn [filter]. unfold Assistant.inHistory at 1.
  rewrite String.eqb_refl. simpl.
  destruct (Js.includes (Assistant.text first) "Hello!"); simpl;
    now rewrite Hrest.
Qed.

Lemma conversationHistory_skips_welcome_witness :
  Assistant.conversationHistory [welcome; askedMojito]
  = [Assistant.mkTurn "user" "How do I make a Mojito?"].
Proof.
  apply (conversationHistory_skips_welcome welcome [askedMojito]).
  intros m [<-|[]]. discriminate.
Defined.
